(** * code-challenge: sum_to_n (problem4), the Books service (problem5)
      and the realtime leaderboard design (scores, top-K snapshots, diffs)

    A shallow embedding of the repository's programs and of the documented
    leaderboard pipeline, with the properties claimed about them. *)

From Stdlib Require Import ZArith Floats Lia.
From stdpp Require Import base option list gmap strings numbers sorting.

#[local] Open Scope Z_scope.

(** ** problem4/sum.ts

    The three functions work on JavaScript numbers, which are IEEE-754
    binary64: [float], with the operations of [PrimFloat].  The loop of
    [sum_to_n_a] and the recursion of [sum_to_n_b] are bounded by a fuel
    argument, and running out of it is a result of its own. *)
Module SumToN.

Inductive error : Type :=
| TypeError (message : string).

(** What a call does: it returns, it throws, or the model ran out of fuel
    (the loop or the recursion had not finished within the bound). *)
Inductive completion (A : Type) : Type :=
| Return (value : A)
| Throw (e : error)
| OutOfFuel.
Arguments Return {A} value.
Arguments Throw {A} e.
Arguments OutOfFuel {A}.

(** [iterate step fuel s] runs [step] from [s] until it answers [inr r], at
    most [fuel] times; still [inl] after that means the bound was reached. *)
Fixpoint iterate {S R : Type} (step : S -> S + R) (fuel : positive) (s : S) : S + R :=
  match fuel with
  | xH => step s
  | xO p =>
      match iterate step p s with
      | inl s' => iterate step p s'
      | inr r => inr r
      end
  | xI p =>
      match step s with
      | inl s1 =>
          match iterate step p s1 with
          | inl s2 => iterate step p s2
          | inr r => inr r
          end
      | inr r => inr r
      end
  end.

(** The number of the integer [z] (rounded, if [z] needs more than 53
    binary digits). *)
Definition of_Z (z : Z) : float :=
  if z <? 0 then PrimFloat.opp (PrimFloat.of_uint63 (Uint63.of_Z (- z)))
  else PrimFloat.of_uint63 (Uint63.of_Z z).

(** Number.isFinite: neither NaN nor an infinity. *)
Definition isFinite (x : float) : bool := PrimFloat.is_finite x.

(** Math.floor: a finite [x] is [±m·2^e]; for [e >= 0] it is an integer
    already, otherwise the floor is the integer [±m] shifted right by [-e]
    (an arithmetic shift rounds towards minus infinity).  NaN, the infinities
    and the zeros are returned as they are. *)
Definition floor (x : float) : float :=
  match Prim2SF x with
  | S754_finite s m e =>
      if 0 <=? e then x
      else of_Z (Z.shiftr (if s then Z.neg m else Z.pos m) (- e))
  | _ => x
  end.

Definition not_finite_message : string := "n must be a finite number".

(** One turn of [for (let i = 1; i <= upto; i++) { sum += i; }] on the state
    [(i, sum)]: the test, then the body, then the increment. *)
Definition loop_step (upto : float) (st : float * float) : (float * float) + float :=
  let '(i, sum) := st in
  if (i <=? upto)%float then inl ((i + 1)%float, (sum + i)%float) else inr sum.

Definition sum_to_n_a (fuel : positive) (n : float) : completion float :=
  if negb (isFinite n) then Throw (TypeError not_finite_message)
  else if (n <=? 0)%float then Return 0%float
  else
    let upto := floor n in
    match iterate (loop_step upto) fuel (1%float, 0%float) with
    | inr sum => Return sum
    | inl _ => OutOfFuel
    end.

(** [helper] of [sum_to_n_b]; [depth] bounds the call stack. *)
Fixpoint helper (depth : nat) (k : float) : option float :=
  match depth with
  | O => None
  | S d =>
      if (k <=? 0)%float then Some 0%float
      else if (k =? 1)%float then Some 1%float
      else
        match helper d (k - 1)%float with
        | Some r => Some (k + r)%float
        | None => None
        end
  end.

Definition sum_to_n_b (depth : nat) (n : float) : completion float :=
  if negb (isFinite n) then Throw (TypeError not_finite_message)
  else if (n <=? 0)%float then Return 0%float
  else
    let upto := floor n in
    match helper depth upto with
    | Some r => Return r
    | None => OutOfFuel
    end.

Definition sum_to_n_c (n : float) : completion float :=
  if negb (isFinite n) then Throw (TypeError not_finite_message)
  else if (n <=? 0)%float then Return 0%float
  else
    let upto := floor n in
    Return ((upto * (upto + 1)) / 2)%float.

(** The cases of [runBasicTests], as [(input, expected)]. *)
Definition tests : list (Z * Z) := [(5, 15); (1, 1); (0, 0); (-3, 0); (10, 55)].

(** *** Vocabulary of the properties *)

(** The integer part of a finite number, as an integer: the integer that
    [floor] returns as a number. *)
Definition floor_Z (x : float) : Z :=
  match Prim2SF x with
  | S754_finite s m e =>
      if 0 <=? e then Z.shiftl (if s then Z.neg m else Z.pos m) e
      else Z.shiftr (if s then Z.neg m else Z.pos m) (- e)
  | _ => 0
  end.

(** Number.MAX_SAFE_INTEGER = 2^53 - 1. *)
Definition MAX_SAFE_INTEGER : Z := 9007199254740991.

(** The triangular number [z (z + 1) / 2]. *)
Definition tri (z : Z) : Z := z * (z + 1) / 2.

(** The sum 1 + 2 + ... + n, term by term. *)
Definition sum_1_to (n : Z) : Z := foldr Z.add 0 (seqZ 1 n).

(** The call threw the guard's TypeError. *)
Definition throws_TypeError (c : completion float) : Prop :=
  c = Throw (TypeError not_finite_message).

(** The header's assumption for the input [x]: the sum up to [Math.floor(x)]
    fits within Number.MAX_SAFE_INTEGER (for [x <= 0] the result is 0). *)
Definition sum_fits (x : float) : Prop :=
  (x <=? 0)%float = true \/ tri (floor_Z x) <= MAX_SAFE_INTEGER.

(** [iterate] with the bound in unary, for reasoning by induction. *)
Fixpoint iterate_nat {S R : Type} (step : S -> S + R) (n : nat) (s : S) : S + R :=
  match n with
  | O => inl s
  | Datatypes.S n' =>
      match step s with
      | inl s' => iterate_nat step n' s'
      | inr r => inr r
      end
  end.

(** [m] shifted left by [d] binary places. *)
Definition shl (m : positive) (d : Z) : positive :=
  match d with
  | Zpos p => Pos.iter xO m p
  | _ => m
  end.

(** The binary64 representation of [m * 2^j], for a positive [m] of at most
    53 binary digits: the mantissa is normalised to 53 digits. *)
Definition canon (m : positive) (j : Z) : spec_float :=
  S754_finite false (shl m (53 - Zpos (Pos.size m))) (Zpos (Pos.size m) - 53 + j).

End SumToN.

(** *** The sums as the loop rounds them *)
Module SumToNSums.
Import SumToN.

(** The value of [sum] after [k] turns of the loop of [sum_to_n_a]: the
    additions [0 + 1 + 2 + ... + k] from the left, each one rounded. *)
Fixpoint running_sum (k : nat) : float :=
  match k with
  | O => 0%float
  | Datatypes.S k' => (running_sum k' + of_Z (Z.of_nat k))%float
  end.

End SumToNSums.

(** ** problem5: GET /books/:id

    [getBookHandler] (controllers/booksController.ts) over
    [BookService.getById] (services/bookService.ts).  The Prisma client is
    the boundary of the repository: the book table is a list of rows whose
    [id] is the primary key, and [findUnique] reads it. *)
Module Books.

(** A row of the Book model, with the fields of the service's Book schema;
    dates are timestamps. *)
Record Book : Type := {
  id : string;
  title : string;
  author : string;
  description : option string;
  publishedAt : option Z;
  pages : option Z;
  isbn : option string;
  createdAt : Z;
  updatedAt : Z
}.

(** What [await] gives: the value of a fulfilled promise, or the error of a
    rejected one, thrown at the [await]. *)
Inductive awaited (A : Type) : Type :=
| Fulfilled (value : A)
| Rejected (err : string).
Arguments Fulfilled {A} value.
Arguments Rejected {A} err.

(** [prisma.book.findUnique({ where: { id } })]: the row with that id, or
    null; the table is passed through as it was. *)
Definition findUnique (db : list Book) (i : string) : awaited (option Book) * list Book :=
  (Fulfilled (List.find (fun b => bool_decide (id b = i)) db), db).

(** [BookService.getById]. *)
Definition getById (db : list Book) (i : string) : awaited (option Book) * list Book :=
  findUnique db i.

(** The part of Express the handler uses: a response starts with status 200,
    [res.status] sets the code, [res.json] sends a body. *)
Inductive Json : Type :=
| JsonBook (book : Book)
| JsonMessage (message : string).

Record Response : Type := {
  statusCode : Z;
  body : option Json
}.

Definition new_response : Response := {| statusCode := 200; body := None |}.

Definition status (code : Z) (res : Response) : Response :=
  {| statusCode := code; body := body res |}.

Definition json (j : Json) (res : Response) : Response :=
  {| statusCode := statusCode res; body := Some j |}.

Record Request : Type := {
  params_id : string   (* req.params.id *)
}.

(** How the handler ends: a response was sent, or [next(err)] was called. *)
Inductive Handled : Type :=
| Sent (res : Response)
| Next (err : string).

Definition getBookHandler (db : list Book) (req : Request) : Handled * list Book :=
  let i := params_id req in
  match getById db i with
  | (Fulfilled book, db') =>
      match book with
      | None => (Sent (json (JsonMessage "Book not found") (status 404 new_response)), db')
      | Some b => (Sent (json (JsonBook b) new_response), db')
      end
  | (Rejected err, db') => (Next err, db')
  end.

(** The two responses of the claim. *)
Definition not_found : Response :=
  {| statusCode := 404; body := Some (JsonMessage "Book not found") |}.

Definition ok (b : Book) : Response :=
  {| statusCode := 200; body := Some (JsonBook b) |}.

(** A row as the seed script creates them. *)
Definition clean_code : Book :=
  {| id := "b1"; title := "Clean Code"; author := "Robert C. Martin";
     description := Some "A Handbook of Agile Software Craftsmanship";
     publishedAt := Some 1217548800; pages := Some 464;
     isbn := Some "9780132350884"; createdAt := 0; updatedAt := 0 |}.

End Books.

(** ** problem5: the Books service

    [createBookHandler], [updateBookHandler] and [deleteBookHandler] of
    controllers/booksController.ts with what they call: the schemas and
    [normalizeBookInput] (validators/bookSchemas.ts), [BookService]
    (services/bookService.ts, with its [list]) and the error handler of
    middleware/errorHandlers.ts which Express runs on [next(err)]; and the
    seed script.  Zod,
    the Date parser and the Prisma client are libraries: the schemas are
    embedded by what they accept, and the client by what it does to the
    table of the migration (primary key [id], unique [isbn], [pages] an
    INTEGER). *)
Module BooksApi.
Import SumToN Books.

(** What lies outside the repository and is left open: the date-time format
    zod accepts, the Date that [new Date(s)] builds, and the database's
    case-insensitive substring match. *)
Inductive Date : Type :=
| ValidDate (timestamp : Z)
| InvalidDate.

Class Platform : Type := {
  datetime : string -> bool;                          (* z.string().datetime() accepts s *)
  new_Date : string -> Date;                          (* new Date(s) *)
  contains_insensitive : string -> string -> bool     (* { contains: needle, mode: 'insensitive' } *)
}.

(** *** JSON bodies *)

#[warnings="-register-all"] Inductive JsonValue : Type :=
| JNull
| JBool (b : bool)
| JNumber (x : float)
| JString (s : string)
| JArray (items : list JsonValue)
| JObject (members : gmap string JsonValue).

(** *** validators/bookSchemas.ts *)

(** An issue of a ZodError, by the path of the offending value; issues of
    one value are counted once. *)
Record ZodIssue : Type := {
  issue_path : list string
}.

(** The result of a schema on a value: the issues, or the parsed value. *)
Definition Parsed (A : Type) : Type := list ZodIssue + A.

Definition issue_at (key : string) : ZodIssue := {| issue_path := [key] |}.

(** Number.isInteger. *)
Definition isInteger (x : float) : bool :=
  isFinite x && (floor x =? x)%float.

(** [z.string().min(n)] on the property [key]; a missing property is
    undefined, which is not a string. *)
Definition string_min (n : nat) (key : string) (v : option JsonValue) : Parsed string :=
  match v with
  | Some (JString s) => if (n <=? String.length s)%nat then inr s else inl [issue_at key]
  | _ => inl [issue_at key]
  end.

(** [z.union([z.string().datetime(), z.date()])]: a JSON value is never a
    Date, so what passes is a string in the date-time format. *)
Definition datetime_or_date `{Platform} (key : string) (v : option JsonValue) : Parsed string :=
  match v with
  | Some (JString s) => if datetime s then inr s else inl [issue_at key]
  | _ => inl [issue_at key]
  end.

(** [z.number().int().positive()]. *)
Definition positive_int (key : string) (v : option JsonValue) : Parsed float :=
  match v with
  | Some (JNumber x) =>
      if isInteger x && (0 <? x)%float then inr x else inl [issue_at key]
  | _ => inl [issue_at key]
  end.

(** [.optional()]: undefined passes as undefined. *)
Definition optional {A : Type} (schema : string -> option JsonValue -> Parsed A)
    (key : string) (v : option JsonValue) : Parsed (option A) :=
  match v with
  | None => inr None
  | Some _ =>
      match schema key v with
      | inr a => inr (Some a)
      | inl issues => inl issues
      end
  end.

Definition issues_of {A : Type} (p : Parsed A) : list ZodIssue :=
  match p with
  | inl issues => issues
  | inr _ => []
  end.

(** The output of [baseBookSchema.partial()]; [createBookSchema] makes
    [title] and [author] required. *)
Record ParsedBook : Type := {
  parsed_title : option string;
  parsed_author : option string;
  parsed_description : option string;
  parsed_publishedAt : option string;
  parsed_pages : option float;
  parsed_isbn : option string
}.

(** [z.object({...})] with the six properties of [baseBookSchema]: every
    property is checked and the issues are collected in the order of the
    schema; unknown properties are dropped.  [partial] makes [title] and
    [author] optional too. *)
Definition baseBookSchema `{Platform} (partial : bool) (value : JsonValue) : Parsed ParsedBook :=
  match value with
  | JObject o =>
      let required (schema : string -> option JsonValue -> Parsed string) key v :=
        if partial then optional schema key v
        else match schema key v with
             | inr a => inr (Some a)
             | inl issues => inl issues
             end in
      let title := required (string_min 1) "title" (o !! "title") in
      let author := required (string_min 1) "author" (o !! "author") in
      let description := optional (string_min 0) "description" (o !! "description") in
      let publishedAt := optional datetime_or_date "publishedAt" (o !! "publishedAt") in
      let pages := optional positive_int "pages" (o !! "pages") in
      let isbn := optional (string_min 5) "isbn" (o !! "isbn") in
      match title, author, description, publishedAt, pages, isbn with
      | inr t, inr a, inr d, inr p, inr n, inr i =>
          inr {| parsed_title := t; parsed_author := a; parsed_description := d;
                 parsed_publishedAt := p; parsed_pages := n; parsed_isbn := i |}
      | _, _, _, _, _, _ =>
          inl (issues_of title ++ issues_of author ++ issues_of description
               ++ issues_of publishedAt ++ issues_of pages ++ issues_of isbn)
      end
  | _ => inl [{| issue_path := [] |}]
  end.

Definition createBookSchema `{Platform} (value : JsonValue) : Parsed ParsedBook :=
  baseBookSchema false value.

Definition updateBookSchema `{Platform} (value : JsonValue) : Parsed ParsedBook :=
  baseBookSchema true value.

(** A property of an input object: left out (undefined), null, or a value. *)
Inductive Field (A : Type) : Type :=
| Undefined
| Null
| Value (a : A).
Arguments Undefined {A}.
Arguments Null {A}.
Arguments Value {A} a.

Definition of_optional {A : Type} (o : option A) : Field A :=
  match o with
  | Some a => Value a
  | None => Undefined
  end.

(** [CreateBookInput] and [UpdateBookInput] of services/bookService.ts in
    one record: [title] and [author] cannot be null, and [create] needs
    them. *)
Record BookInput : Type := {
  input_title : option string;
  input_author : option string;
  input_description : Field string;
  input_publishedAt : Field Date;
  input_pages : Field float;
  input_isbn : Field string
}.

(** [normalizeBookInput]: the object is copied, and [publishedAt] becomes a
    Date when it is truthy (a non-empty string), undefined otherwise. *)
Definition normalizeBookInput `{Platform} (d : ParsedBook) : BookInput :=
  {| input_title := parsed_title d;
     input_author := parsed_author d;
     input_description := of_optional (parsed_description d);
     input_publishedAt :=
       match parsed_publishedAt d with
       | Some s => if bool_decide (s = "") then Undefined else Value (new_Date s)
       | None => Undefined
       end;
     input_pages := of_optional (parsed_pages d);
     input_isbn := of_optional (parsed_isbn d) |}.

(** *** The Prisma client on the Book table *)

Inductive Error : Type :=
| ZodError (issues : list ZodIssue)
| PrismaClientKnownRequestError (code : string)
| PrismaClientValidationError.

(** What [await] gives: the value, or the error thrown. *)
Inductive Settled (A : Type) : Type :=
| Resolved (value : A)
| Thrown (err : Error).
Arguments Resolved {A} value.
Arguments Thrown {A} err.

(** What the database and the client supply for a new row. *)
Record Generated : Type := {
  new_id : string;
  new_createdAt : Z;
  new_updatedAt : Z
}.

(** A number for the INTEGER column [pages]: an integer of 32 bits. *)
Definition int_column (x : float) : option Z :=
  if isInteger x && (-2147483648 <=? floor_Z x) && (floor_Z x <=? 2147483647)
  then Some (floor_Z x) else None.

Definition date_column (d : Date) : option Z :=
  match d with
  | ValidDate t => Some t
  | InvalidDate => None
  end.

(** A property of [data] with its value converted for the column; [None]
    when the client refuses the value. *)
Definition checked {A B : Type} (convert : A -> option B) (f : Field A) : option (Field B) :=
  match f with
  | Undefined => Some Undefined
  | Null => Some Null
  | Value a =>
      match convert a with
      | Some b => Some (Value b)
      | None => None
      end
  end.

(** What a nullable column holds after the write: its former content where
    the property is undefined, NULL for null, the value otherwise. *)
Definition assign {A : Type} (f : Field A) (keep : option A) : option A :=
  match f with
  | Undefined => keep
  | Null => None
  | Value a => Some a
  end.

Definition has_id (i : string) (b : Book) : bool := bool_decide (id b = i).

Definition has_isbn (s : string) (b : Book) : bool := bool_decide (isbn b = Some s).

(** The unique index on [isbn]: whether a row other than the row [but]
    holds this [isbn] already (NULL is never taken). *)
Definition isbn_taken (db : list Book) (but : string) (i : option string) : bool :=
  match i with
  | Some s => existsb (fun b => has_isbn s b && negb (has_id but b)) db
  | None => false
  end.

(** [prisma.book.create({ data })], which is all of [BookService.create]:
    the client checks the values, the database the primary key and the
    unique index, and the row is added. *)
Definition create (g : Generated) (db : list Book) (data : BookInput)
    : Settled Book * list Book :=
  match input_title data, input_author data,
        checked date_column (input_publishedAt data),
        checked int_column (input_pages data) with
  | Some t, Some a, Some published, Some n =>
      let book := {| id := new_id g; title := t; author := a;
                     description := assign (input_description data) None;
                     publishedAt := assign published None;
                     pages := assign n None;
                     isbn := assign (input_isbn data) None;
                     createdAt := new_createdAt g; updatedAt := new_updatedAt g |} in
      if existsb (has_id (new_id g)) db || isbn_taken db (new_id g) (isbn book)
      then (Thrown (PrismaClientKnownRequestError "P2002"), db)
      else (Resolved book, db ++ [book])
  | _, _, _, _ => (Thrown PrismaClientValidationError, db)
  end.

(** [prisma.book.update({ where: { id }, data })], which is all of
    [BookService.update]: P2025 when no row has the id; [now] is the value
    the client writes to [updatedAt]. *)
Definition update (now : Z) (db : list Book) (i : string) (data : BookInput)
    : Settled Book * list Book :=
  match checked date_column (input_publishedAt data),
        checked int_column (input_pages data) with
  | Some published, Some n =>
      match List.find (has_id i) db with
      | None => (Thrown (PrismaClientKnownRequestError "P2025"), db)
      | Some old =>
          let book :=
            {| id := id old;
               title := default (title old) (input_title data);
               author := default (author old) (input_author data);
               description := assign (input_description data) (description old);
               publishedAt := assign published (publishedAt old);
               pages := assign n (pages old);
               isbn := assign (input_isbn data) (isbn old);
               createdAt := createdAt old;
               updatedAt := now |} in
          if isbn_taken db i (isbn book)
          then (Thrown (PrismaClientKnownRequestError "P2002"), db)
          else (Resolved book, (fun b => if has_id i b then book else b) <$> db)
      end
  | _, _ => (Thrown PrismaClientValidationError, db)
  end.

(** [prisma.book.delete({ where: { id } })], which is all of
    [BookService.delete]: P2025 when no row has the id. *)
Definition delete (db : list Book) (i : string) : Settled Book * list Book :=
  match List.find (has_id i) db with
  | None => (Thrown (PrismaClientKnownRequestError "P2025"), db)
  | Some old => (Resolved old, filter (fun b => id b <> i) db)
  end.

(** The [where] of [list]: each filter is present or not. *)
Record Where : Type := {
  where_title : option string;
  where_author : option string
}.

Definition satisfies `{Platform} (w : Where) (b : Book) : bool :=
  match where_title w with
  | Some t => contains_insensitive (title b) t
  | None => true
  end
  && match where_author w with
     | Some a => contains_insensitive (author b) a
     | None => true
     end.

(** [orderBy: { createdAt: 'desc' }]. *)
Definition newer_first (a b : Book) : Prop := createdAt b <= createdAt a.

#[export] Instance newer_first_dec (a b : Book) : Decision (newer_first a b).
Proof. unfold newer_first. apply _. Defined.

(** [prisma.book.findMany({ where, skip, take, orderBy })] for the natural
    numbers [skip] and [take] that [list] passes for a positive [page] and
    [pageSize].  Rows of one [createdAt] come in table order. *)
Definition findMany `{Platform} (db : list Book) (w : Where) (skip take_ : Z) : list Book :=
  take (Z.to_nat take_)
    (drop (Z.to_nat skip) (merge_sort newer_first (filter (fun b => satisfies w b = true) db))).

(** [prisma.book.count({ where })]. *)
Definition count `{Platform} (db : list Book) (w : Where) : Z :=
  Z.of_nat (length (filter (fun b => satisfies w b = true) db)).

(** *** services/bookService.ts *)

Record ListBooksQuery : Type := {
  query_page : option Z;
  query_pageSize : option Z;
  query_title : option string;
  query_author : option string
}.

Record PaginatedResult : Type := {
  data : list Book;
  total : Z;
  page : Z;
  pageSize : Z
}.

(** [if (title)]: a filter is set by a string that is not empty. *)
Definition truthy (s : option string) : option string :=
  match s with
  | Some t => if bool_decide (t = "") then None else Some t
  | None => None
  end.

Definition list_books `{Platform} (db : list Book) (query : ListBooksQuery)
    : Settled PaginatedResult * list Book :=
  let page := default 1 (query_page query) in
  let pageSize := default 20 (query_pageSize query) in
  let skip := (page - 1) * pageSize in
  let w := {| where_title := truthy (query_title query);
              where_author := truthy (query_author query) |} in
  (Resolved {| data := findMany db w skip pageSize; total := count db w;
               page := page; pageSize := pageSize |}, db).

(** *** Express: responses, and the error handler registered last *)

Inductive Body : Type :=
| BookBody (book : Book)                                        (* res.json(book) *)
| PageBody (result : PaginatedResult)                           (* res.json(result) *)
| MessageBody (message : string)                                (* { message } *)
| IssuesBody (message : string) (issues : list ZodIssue).       (* { message, issues } *)

Record HttpResponse : Type := {
  http_status : Z;
  http_body : option Body
}.

(** How a handler ends: a response was sent, or [next(err)] was called. *)
Inductive Ended : Type :=
| Responded (res : HttpResponse)
| NextError (err : Error).

Definition respond (code : Z) (b : Body) : Ended :=
  Responded {| http_status := code; http_body := Some b |}.

(** middleware/errorHandlers.ts *)
Definition notFoundHandler : HttpResponse :=
  {| http_status := 404; http_body := Some (MessageBody "Not Found") |}.

Definition errorHandler (err : Error) : HttpResponse :=
  match err with
  | ZodError issues =>
      {| http_status := 400; http_body := Some (IssuesBody "Validation error" issues) |}
  | PrismaClientKnownRequestError code =>
      if bool_decide (code = "P2025")
      then {| http_status := 404; http_body := Some (MessageBody "Resource not found") |}
      else {| http_status := 500; http_body := Some (MessageBody "Internal Server Error") |}
  | PrismaClientValidationError =>
      {| http_status := 500; http_body := Some (MessageBody "Internal Server Error") |}
  end.

(** *** controllers/booksController.ts *)

Definition createBookHandler `{Platform} (g : Generated) (db : list Book) (body : JsonValue)
    : Ended * list Book :=
  match createBookSchema body with
  | inl issues => (NextError (ZodError issues), db)
  | inr parsed =>
      let normalized := normalizeBookInput parsed in
      match create g db normalized with
      | (Resolved book, db') => (respond 201 (BookBody book), db')
      | (Thrown err, db') => (NextError err, db')
      end
  end.

Definition updateBookHandler `{Platform} (now : Z) (db : list Book) (i : string) (body : JsonValue)
    : Ended * list Book :=
  match updateBookSchema body with
  | inl issues => (NextError (ZodError issues), db)
  | inr parsed =>
      let normalized := normalizeBookInput parsed in
      match update now db i normalized with
      | (Resolved updated, db') => (respond 200 (BookBody updated), db')
      | (Thrown err, db') => (NextError err, db')
      end
  end.

Definition deleteBookHandler (db : list Book) (i : string) : Ended * list Book :=
  match delete db i with
  | (Resolved _, db') => (Responded {| http_status := 204; http_body := None |}, db')
  | (Thrown err, db') => (NextError err, db')
  end.

(** What the client receives: the handler's response, or the error
    handler's when the handler called [next(err)] (app.ts registers
    [errorHandler] after the router). *)
Definition answer (h : Ended * list Book) : HttpResponse * list Book :=
  match h with
  | (Responded res, db) => (res, db)
  | (NextError err, db) => (errorHandler err, db)
  end.

(** *** prisma/seed.js *)

(** [prisma.book.createMany({ data })]: one INSERT of all the rows, refused
    as a whole when an id or an isbn would occur twice. *)
Definition createMany (db : list Book) (rows : list Book) : Settled Z * list Book :=
  if bool_decide (NoDup (id <$> db ++ rows) /\ NoDup (omap isbn (db ++ rows)))
  then (Resolved (Z.of_nat (length rows)), db ++ rows)
  else (Thrown (PrismaClientKnownRequestError "P2002"), db).

Definition seed_data (g1 g2 : Generated) : list Book :=
  [ {| id := new_id g1; title := "Clean Code"; author := "Robert C. Martin";
       description := Some "A Handbook of Agile Software Craftsmanship";
       publishedAt := Some 1217548800; pages := Some 464;
       isbn := Some "9780132350884";
       createdAt := new_createdAt g1; updatedAt := new_updatedAt g1 |};
    {| id := new_id g2; title := "The Pragmatic Programmer";
       author := "Andrew Hunt / David Thomas";
       description := Some "Your Journey to Mastery";
       publishedAt := Some 941241600; pages := Some 352;
       isbn := Some "9780135957059";
       createdAt := new_createdAt g2; updatedAt := new_updatedAt g2 |} ].

(** How [main] ends: with one of its two log lines, or with the error that
    [main().catch] reports before [process.exit(1)]. *)
Inductive Seeded : Type :=
| Seed_skipped        (* 'Seed skipped: books already exist' *)
| Seed_inserted       (* 'Seed data inserted' *)
| Seed_failed (err : Error).

Definition main (g1 g2 : Generated) (db : list Book) : Seeded * list Book :=
  let count := Z.of_nat (length db) in
  if 0 <? count then (Seed_skipped, db)
  else
    match createMany db (seed_data g1 g2) with
    | (Resolved _, db') => (Seed_inserted, db')
    | (Thrown err, db') => (Seed_failed err, db')
    end.

(** *** Vocabulary of the properties *)

(** The constraints of [baseBookSchema] on a stored row. *)
Definition row_ok (b : Book) : Prop :=
  title b <> "" /\ author b <> ""
  /\ (forall n, pages b = Some n -> 0 < n <= 2147483647)
  /\ (forall s, isbn b = Some s -> (5 <= String.length s)%nat).

(** What an accepted object holds, property by property. *)
Record accepted `{Platform} (partial : bool) (o : gmap string JsonValue) (p : ParsedBook)
    : Prop := {
  accepted_title : o !! "title" = JString <$> parsed_title p;
  accepted_title_min : forall t, parsed_title p = Some t -> t <> "";
  accepted_title_required : partial = false -> is_Some (parsed_title p);
  accepted_author : o !! "author" = JString <$> parsed_author p;
  accepted_author_min : forall a, parsed_author p = Some a -> a <> "";
  accepted_author_required : partial = false -> is_Some (parsed_author p);
  accepted_description : o !! "description" = JString <$> parsed_description p;
  accepted_publishedAt : o !! "publishedAt" = JString <$> parsed_publishedAt p;
  accepted_datetime : forall s, parsed_publishedAt p = Some s -> datetime s = true;
  accepted_pages : o !! "pages" = JNumber <$> parsed_pages p;
  accepted_pages_int :
    forall x, parsed_pages p = Some x -> isInteger x = true /\ (0 <? x)%float = true;
  accepted_isbn : o !! "isbn" = JString <$> parsed_isbn p;
  accepted_isbn_min : forall s, parsed_isbn p = Some s -> (5 <= String.length s)%nat
}.

Definition internal_server_error : HttpResponse :=
  {| http_status := 500; http_body := Some (MessageBody "Internal Server Error") |}.

(** An instance for examples: it knows the date of the README's example
    and matches on ASCII letters. *)
Definition lower (c : Ascii.ascii) : Ascii.ascii :=
  let n := Ascii.nat_of_ascii c in
  if ((65 <=? n) && (n <=? 90))%nat then Ascii.ascii_of_nat (n + 32) else c.

Fixpoint lowercase (s : string) : string :=
  match s with
  | EmptyString => EmptyString
  | String c r => String (lower c) (lowercase r)
  end.

Definition readme_platform : Platform := {|
  datetime s := bool_decide (s = "2017-09-20T00:00:00.000Z");
  new_Date s :=
    if bool_decide (s = "2017-09-20T00:00:00.000Z") then ValidDate 1505865600
    else InvalidDate;
  contains_insensitive hay needle :=
    match String.index 0 (lowercase needle) (lowercase hay) with
    | Some _ => true
    | None => false
    end
|}.

(** The body of the README's example of POST /books. *)
Definition clean_architecture : JsonValue :=
  JObject (list_to_map
    [("title", JString "Clean Architecture"); ("author", JString "Robert C. Martin");
     ("description", JString "On software design");
     ("publishedAt", JString "2017-09-20T00:00:00.000Z");
     ("pages", JNumber 300); ("isbn", JString "9780134494166")]).

Definition generated (i : string) (at_ : Z) : Generated :=
  {| new_id := i; new_createdAt := at_; new_updatedAt := at_ |}.

(** A body for PUT /books/:id that sets the page count only. *)
Definition new_pages : JsonValue := JObject {[ "pages" := JNumber 500 ]}.

(** The row this body makes under the id b7 at the time 100. *)
Definition clean_architecture_book : Book :=
  {| id := "b7"; title := "Clean Architecture"; author := "Robert C. Martin";
     description := Some "On software design"; publishedAt := Some 1505865600;
     pages := Some 300; isbn := Some "9780134494166";
     createdAt := 100; updatedAt := 100 |}.

End BooksApi.

(** ** The realtime leaderboard

    The repository documents this module (the schema, the transaction and the
    update flow of the module specification, the sequence diagram of the
    scoreboard API); it holds no implementation of it.  The store is embedded
    from the documented schema and transaction.  The components that only the
    specification describes (Admission Guard, Top-K Cache, Diff Engine, Fanout
    Publisher, pipeline) are modelled from its words, and say so.  Every
    operation is one atomic step, as the specification requires of them;
    concurrent requests are sequences of such steps in any order. *)
Module Leaderboard.

Record Config : Type := {
  cap : Z;              (* bound of the delta CHECK; 1000000 in the schema *)
  leeway : Z;           (* clock-skew tolerance on the token's expiry, seconds *)
  K : nat;              (* size of the leaderboard *)
  rate_limit : nat;     (* score events one bucket admits per window *)
  full_every : Z        (* a full snapshot goes out every so many versions *)
}.

Definition default_config : Config :=
  {| cap := 1000000; leeway := 5; K := 10; rate_limit := 60; full_every := 50 |}.

(** *** The authoritative store: tables [user_scores] and [score_events] *)

(** A row of [user_scores], found by [user_id]. *)
Record UserScore : Type := {
  score : Z;
  updated_at : Z
}.

(** A row of [score_events]. *)
Record ScoreEvent : Type := {
  event_id : string;          (* id TEXT PRIMARY KEY *)
  user_id : string;
  delta : Z;
  action_type : string;
  action_token_id : string;
  created_at : Z;
  ingested_at : Z
}.

#[export] Instance ScoreEvent_eq_dec : EqDecision ScoreEvent.
Proof. solve_decision. Defined.

Record Database : Type := {
  user_scores : gmap string UserScore;
  score_events : gmap string ScoreEvent
}.

Definition empty_database : Database :=
  {| user_scores := ∅; score_events := ∅ |}.

(** [CHECK (delta > 0 AND delta < 1000000)], the bound being configured. *)
Definition delta_check (cfg : Config) (d : Z) : bool :=
  bool_decide (0 < d) && bool_decide (d < cap cfg).

(** The score a user has; a user without a row has none yet, that is 0. *)
Definition current_score (db : Database) (u : string) : Z :=
  match user_scores db !! u with
  | Some row => score row
  | None => 0
  end.

(** How the transaction ends.  [Committed] and [UniqueViolation] are the
    specification's [(newScore, applied = true)] and [(score, applied =
    false)]; a row that fails the CHECK aborts the transaction as well. *)
Inductive TxResult : Type :=
| Committed (newScore : Z)
| UniqueViolation (current : Z)
| CheckViolation.

(** The transaction of the update flow: upsert the user's row (score 0 if
    absent), insert the event (the primary key and the CHECK may refuse it,
    which rolls everything back), set [score = score + delta] and
    [updated_at], commit. *)
Definition applyDelta (cfg : Config) (db : Database) (ev : ScoreEvent) : TxResult * Database :=
  let upserted :=
    match user_scores db !! user_id ev with
    | Some _ => user_scores db
    | None => <[user_id ev := {| score := 0; updated_at := ingested_at ev |}]> (user_scores db)
    end in
  if negb (delta_check cfg (delta ev)) then (CheckViolation, db)
  else
    match score_events db !! event_id ev with
    | Some _ => (UniqueViolation (current_score db (user_id ev)), db)
    | None =>
        let events := <[event_id ev := ev]> (score_events db) in
        let old := match upserted !! user_id ev with Some row => score row | None => 0 end in
        let new := old + delta ev in
        (Committed new,
         {| user_scores :=
              <[user_id ev := {| score := new; updated_at := ingested_at ev |}]> upserted;
            score_events := events |})
    end.

(** The store after a sequence of events, each applied in its own
    transaction. *)
Definition apply_all (cfg : Config) (db : Database) (evs : list ScoreEvent) : Database :=
  foldl (fun db ev => snd (applyDelta cfg db ev)) db evs.

(** The sum of the deltas that the events of [evs] carry for user [u]. *)
Definition total_delta (u : string) (evs : list ScoreEvent) : Z :=
  foldr (fun ev acc => if bool_decide (user_id ev = u) then delta ev + acc else acc) 0 evs.

(** *** Admission Guard *)

(** The signed proof-of-action.  Whether the signature verifies under the
    token's key version is the verifier's answer, taken as given. *)
Record Token : Type := {
  signature_valid : bool;
  sub : string;
  act : string;
  nonce : string;             (* the action identifier *)
  exp : Z;
  delta_cap : Z
}.

Record Request : Type := {
  caller : string;            (* the verified identity *)
  origin : string;            (* the source the request comes from *)
  req_delta : Z;
  req_action_type : string;
  token : Token;
  now : Z                     (* the guard's clock at arrival *)
}.

Inductive Rejection : Type :=
| ValidationError
| AuthError
| RateLimited.

(** The response of a successful ingestion. *)
Record Receipt : Type := {
  eventId : string;
  newScore : Z;
  leaderboardChanged : bool
}.

(** Modelled from the spec: the Idempotency Ledger's record of a consumed
    action identifier, its expiry and the result computed for it (the
    Duplicate outcome carries "the previously computed result"). *)
Record NonceRecord : Type := {
  expiry : Z;
  result : Receipt
}.

Inductive Admission : Type :=
| Accepted (ev : ScoreEvent)
| Duplicate (previous : Receipt)
| Rejected (reason : Rejection).

(** Token buckets, per user and per source: the tokens taken in the current
    window. *)
Record Limiter : Type := {
  per_user : gmap string nat;
  per_source : gmap string nat
}.

Definition taken (m : gmap string nat) (k : string) : nat :=
  match m !! k with Some n => n | None => 0%nat end.

Definition take_token (lim : Limiter) (req : Request) : Limiter :=
  {| per_user := <[caller req := S (taken (per_user lim) (caller req))]> (per_user lim);
     per_source := <[origin req := S (taken (per_source lim) (origin req))]> (per_source lim) |}.

(** Checks (a), (b) and (c) of the guard, each on its own. *)
Definition token_live (cfg : Config) (req : Request) : bool :=
  signature_valid (token req) && bool_decide (now req <= exp (token req) + leeway cfg).

Definition subject_matches (req : Request) : bool :=
  bool_decide (sub (token req) = caller req).

Definition delta_in_bounds (cfg : Config) (req : Request) : bool :=
  delta_check cfg (req_delta req) && bool_decide (req_delta req <= delta_cap (token req)).

(** Modelled from the spec: [admit] of the Admission Guard (no implementation
    in the repository).  The checks run in the order (a) signature and
    expiry, with the clock-skew leeway, (b) subject, (c) delta bounds,
    (d) Idempotency Ledger, (e) rate limit, and stop at the first failure;
    the accepted event takes the action identifier as its id.  (The bare
    name is a reserved word of the proof language, hence [admitEvent].) *)
Definition admitEvent (cfg : Config) (ledger : gmap string NonceRecord) (lim : Limiter)
    (req : Request) : Admission :=
  if negb (token_live cfg req) then Rejected AuthError
  else if negb (subject_matches req) then Rejected AuthError
  else if negb (delta_in_bounds cfg req) then Rejected ValidationError
  else
    match ledger !! nonce (token req) with
    | Some record => Duplicate (result record)
    | None =>
        if bool_decide (taken (per_user lim) (caller req) < rate_limit cfg)%nat
           && bool_decide (taken (per_source lim) (origin req) < rate_limit cfg)%nat
        then Accepted {| event_id := nonce (token req);
                         user_id := caller req;
                         delta := req_delta req;
                         action_type := req_action_type req;
                         action_token_id := nonce (token req);
                         created_at := now req;
                         ingested_at := now req |}
        else Rejected RateLimited
    end.

(** *** Top-K Cache *)

Record Entry : Type := {
  rank : nat;
  userId : string;
  points : Z                  (* the entry's score *)
}.

#[export] Instance Entry_eq_dec : EqDecision Entry.
Proof. solve_decision. Defined.

Record TopKSnapshot : Type := {
  version : Z;
  generatedAt : Z;
  entries : list Entry
}.

(** What the cache knows of a user: the score and when it last changed. *)
Record Standing : Type := {
  standing_score : Z;
  standing_updatedAt : Z
}.

Record Cache : Type := {
  standings : gmap string Standing;
  snapshot : TopKSnapshot
}.

Definition users (l : list Entry) : list string := userId <$> l.

(** The ranking order: score descending, then earliest [updatedAt]; users
    equal in both are kept apart by their identifier, so that the order is
    total. *)
Definition ranks_before (a b : string * Standing) : Prop :=
  standing_score b.2 < standing_score a.2
  \/ (standing_score a.2 = standing_score b.2
      /\ (standing_updatedAt a.2 < standing_updatedAt b.2
          \/ (standing_updatedAt a.2 = standing_updatedAt b.2
              /\ (encode a.1 <= encode b.1)%positive))).

#[export] Instance ranks_before_dec (a b : string * Standing) : Decision (ranks_before a b).
Proof. unfold ranks_before. apply _. Defined.

(** Modelled from the spec: the top K of the ranked structure, ranks from 1. *)
Definition top_k (cfg : Config) (st : gmap string Standing) : list Entry :=
  imap (fun i x => {| rank := S i; userId := x.1; points := standing_score x.2 |})
       (take (K cfg) (merge_sort ranks_before (map_to_list st))).

(** Modelled from the spec: [onApplied] of the Top-K Cache.  The user's
    position is updated; the version is bumped and a new snapshot produced
    when the top K changed, which the module specification spells out as a
    change "to top 10 ordering or membership"; otherwise the existing
    snapshot is returned unchanged. *)
Definition onApplied (cfg : Config) (c : Cache) (user : string) (new : Z) (at_ : Z) : Cache :=
  let st := <[user := {| standing_score := new; standing_updatedAt := at_ |}]> (standings c) in
  let top := top_k cfg st in
  if bool_decide (users top = users (entries (snapshot c)))
  then {| standings := st; snapshot := snapshot c |}
  else {| standings := st;
          snapshot := {| version := version (snapshot c) + 1;
                         generatedAt := at_;
                         entries := top |} |}.

(** *** Diff Engine *)

Record Move : Type := {
  moved_user : string;
  oldRank : nat;
  newRank : nat
}.

#[export] Instance Move_eq_dec : EqDecision Move.
Proof. solve_decision. Defined.

Record Diff : Type := {
  fromVersion : Z;
  toVersion : Z;
  removed : gset string;
  added : list Entry;
  moved : list Move
}.

Definition find_user (l : list Entry) (u : string) : option Entry :=
  List.find (fun e => bool_decide (userId e = u)) l.

Definition rank_of (l : list Entry) (u : string) : option nat :=
  rank <$> find_user l u.

(** The positional change of a member of [current], if it has one. *)
Definition move_of (previous : list Entry) (e : Entry) : option Move :=
  match rank_of previous (userId e) with
  | Some r =>
      if bool_decide (r = rank e) then None
      else Some {| moved_user := userId e; oldRank := r; newRank := rank e |}
  | None => None
  end.

(** Modelled from the spec: [diff] of the Diff Engine.  Equal versions give
    the empty Diff; otherwise [removed] and [added] are the set differences
    on membership, [added] with the new ranks, and [moved] lists the members
    of both whose rank changed. *)
Definition diff (previous current : TopKSnapshot) : Diff :=
  if bool_decide (version previous = version current)
  then {| fromVersion := version previous; toVersion := version current;
          removed := ∅; added := []; moved := [] |}
  else {| fromVersion := version previous;
          toVersion := version current;
          removed := list_to_set
                       (filter (fun u => u ∉ users (entries current))
                               (users (entries previous)));
          added := filter (fun e => userId e ∉ users (entries previous)) (entries current);
          moved := omap (move_of (entries previous)) (entries current) |}.

Definition diff_empty (d : Diff) : bool :=
  bool_decide (removed d = ∅) && bool_decide (added d = []) && bool_decide (moved d = []).


Definition rank_le (a b : Entry) : Prop := (rank a <= rank b)%nat.

#[export] Instance rank_le_dec (a b : Entry) : Decision (rank_le a b).
Proof. unfold rank_le. apply _. Defined.



(** A snapshot as the cache produces them: no user twice, ranks 1, 2, ... in
    order. *)
Definition well_ranked (l : list Entry) : Prop :=
  NoDup (users l) /\ rank <$> l = seq 1 (length l).

(** *** Fanout Publisher *)

Record Message : Type := {
  msg_version : Z;
  msg_diff : Diff;
  msg_full : option TopKSnapshot
}.

(** Modelled from the spec: [publish] of the Fanout Publisher, on the list of
    messages handed to the bus.  Nothing is published for an empty Diff;
    [full_due] says whether the full snapshot goes along. *)
Definition publish (d : Diff) (snapshotForResync : TopKSnapshot) (full_due : bool)
    (bus : list Message) : list Message :=
  if diff_empty d then bus
  else bus ++ [{| msg_version := toVersion d;
                  msg_diff := d;
                  msg_full := if full_due then Some snapshotForResync else None |}].

(** *** Score Event Pipeline *)

Record Engine : Type := {
  db : Database;
  ledger : gmap string NonceRecord;
  limiter : Limiter;
  cache : Cache;
  bus : list Message
}.

Definition initial : Engine :=
  {| db := empty_database;
     ledger := ∅;
     limiter := {| per_user := ∅; per_source := ∅ |};
     cache := {| standings := ∅;
                 snapshot := {| version := 0; generatedAt := 0; entries := [] |} |};
     bus := [] |}.

Inductive Response : Type :=
| Ok (receipt : Receipt)
| Failed (reason : Rejection).

Definition replayed (r : Receipt) : Receipt :=
  {| eventId := eventId r; newScore := newScore r; leaderboardChanged := false |}.

(** Modelled from the spec: the orchestrator, one request as one atomic step:
    Admission Guard, then the store, then the cache, the diff and the
    publisher.  A rejection and a duplicate leave the state as it is; an
    accepted event is recorded in the ledger with the result computed for
    it. *)
Definition ingest (cfg : Config) (st : Engine) (req : Request) : Response * Engine :=
  match admitEvent cfg (ledger st) (limiter st) req with
  | Rejected reason => (Failed reason, st)
  | Duplicate previous => (Ok (replayed previous), st)
  | Accepted ev =>
      match applyDelta cfg (db st) ev with
      | (Committed new, db') =>
          let cache' := onApplied cfg (cache st) (user_id ev) new (ingested_at ev) in
          let d := diff (snapshot (cache st)) (snapshot cache') in
          let receipt := {| eventId := event_id ev;
                            newScore := new;
                            leaderboardChanged := negb (diff_empty d) |} in
          let due := bool_decide (version (snapshot cache') `mod` full_every cfg = 0) in
          (Ok receipt,
           {| db := db';
              ledger := <[nonce (token req) :=
                            {| expiry := exp (token req); result := receipt |}]> (ledger st);
              limiter := take_token (limiter st) req;
              cache := cache';
              bus := publish d (snapshot cache') due (bus st) |})
      | (UniqueViolation current, _) =>
          let receipt := {| eventId := event_id ev;
                            newScore := current;
                            leaderboardChanged := false |} in
          (Ok receipt,
           {| db := db st;
              ledger := <[nonce (token req) :=
                            {| expiry := exp (token req); result := receipt |}]> (ledger st);
              limiter := take_token (limiter st) req;
              cache := cache st;
              bus := bus st |})
      | (CheckViolation, _) => (Failed ValidationError, st)
      end
  end.

Definition run (cfg : Config) (st : Engine) (reqs : list Request) : Engine :=
  foldl (fun st req => snd (ingest cfg st req)) st reqs.


(** *** The scenarios of the specification *)

Definition entry (r : nat) (u : string) (s : Z) : Entry :=
  {| rank := r; userId := u; points := s |}.

(** A at 100, B at 90, K = 10. *)
Definition board_AB : TopKSnapshot :=
  {| version := 1; generatedAt := 10; entries := [entry 1 "A" 100; entry 2 "B" 90] |}.


(** The board after B has gone to [s], above A. *)
Definition board_BA (s : Z) : TopKSnapshot :=
  {| version := 2; generatedAt := 20; entries := [entry 1 "B" s; entry 2 "A" 100] |}.

Definition good_token (user nonce_ : string) (exp_ : Z) : Token :=
  {| signature_valid := true; sub := user; act := "level_complete";
     nonce := nonce_; exp := exp_; delta_cap := 50 |}.

Definition request (user nonce_ : string) (d exp_ at_ : Z) : Request :=
  {| caller := user; origin := "203.0.113.7"; req_delta := d;
     req_action_type := "level_complete"; token := good_token user nonce_ exp_;
     now := at_ |}.

End Leaderboard.

(** *** The audit log *)
Module LeaderboardLog.
Import Leaderboard.

(** The sum of the deltas that the rows of [score_events] hold for user
    [u]: what the reconciliation recomputes from the audit log. *)
Definition logged_delta (u : string) (events : gmap string ScoreEvent) : Z :=
  map_fold (fun _ ev acc => if bool_decide (user_id ev = u) then delta ev + acc else acc)
    0 events.

End LeaderboardLog.

(** * Properties *)

(** ** problem4/sum.ts *)
Section SumToNFacts.
Import SumToN.

(** *** Integers on binary64

    What the specification of the primitive floats gives for the integers
    below 2^53: they are represented exactly; they add, subtract and compare
    as integers; and a product that is an integer below 2^53 times a power
    of two is exact, as is its half. *)
Section Binary64Integers.

Lemma digits2_size (p : positive) : digits2_pos p = Pos.size p.
Proof. induction p; simpl; congruence. Qed.

Lemma shl_Z (m : positive) (d : Z) : 0 <= d -> Zpos (shl m d) = Zpos m * 2 ^ d.
Proof.
  destruct d as [|p|p]; intros Hd; [simpl; lia | | lia].
  unfold shl. apply (Pos.iter_ind _ xO m (fun p r => Zpos r = Zpos m * 2 ^ Zpos p)).
  - lia.
  - intros k r Hr. rewrite Pos2Z.inj_succ, Z.pow_succ_r by lia. lia.
Qed.

Lemma shl_size (m : positive) (d : Z) :
  0 <= d -> Zpos (Pos.size (shl m d)) = Zpos (Pos.size m) + d.
Proof.
  destruct d as [|p|p]; intros Hd; [simpl; lia | | lia].
  unfold shl.
  apply (Pos.iter_ind _ xO m (fun p r => Zpos (Pos.size r) = Zpos (Pos.size m) + Zpos p)).
  - simpl. lia.
  - intros k r Hr. simpl Pos.size. lia.
Qed.

Lemma shl_shl (m : positive) (a b : Z) : 0 <= a -> 0 <= b -> shl (shl m a) b = shl m (a + b).
Proof.
  intros Ha Hb. apply Pos2Z.inj. rewrite !shl_Z by lia. rewrite Z.pow_add_r by lia. lia.
Qed.

Lemma shr_exact (p x : positive) :
  SpecFloat.iter_pos shr_1 p {| shr_m := Zpos (Pos.iter xO x p); shr_r := false; shr_s := false |}
  = {| shr_m := Zpos x; shr_r := false; shr_s := false |}.
Proof.
  revert x; induction p as [p IH|p IH|]; intros x; simpl.
  - by rewrite !IH.
  - by rewrite !IH.
  - reflexivity.
Qed.

Lemma fexp_64 (d : Z) : fexp prec emax d = Z.max (d - 53) (-1074).
Proof. reflexivity. Qed.

Lemma fits_64 (e : Z) : e <= 971 -> (e <=? emax - prec) = true.
Proof. intros He. apply Z.leb_le. change (emax - prec) with 971. lia. Qed.

(** A 53-digit mantissa within the exponent range is left as it is. *)
Lemma shr_fexp_53 (m : positive) (e : Z) :
  Zpos (Pos.size m) = 53 -> -1074 <= e ->
  shr_fexp prec emax (Zpos m) e loc_Exact
  = ({| shr_m := Zpos m; shr_r := false; shr_s := false |}, e).
Proof.
  intros Hm He. unfold shr_fexp, Zdigits2.
  rewrite fexp_64, digits2_size, Hm.
  replace (Z.max (53 + e - 53) (-1074) - e) with 0 by lia.
  reflexivity.
Qed.

Lemma round_aux_53 (m : positive) (e : Z) :
  Zpos (Pos.size m) = 53 -> -1074 <= e <= 971 ->
  binary_round_aux prec emax false (Zpos m) e loc_Exact = S754_finite false m e.
Proof.
  intros Hm He. unfold binary_round_aux.
  rewrite shr_fexp_53 by lia. cbn [shr_m loc_of_shr_record round_nearest_even].
  rewrite shr_fexp_53 by lia. cbn [shr_m].
  by rewrite fits_64 by lia.
Qed.

(** Rounding a mantissa of at least 53 digits whose low digits are zero:
    they are shifted out and nothing is lost. *)
Lemma round_aux_shl (q : positive) (k e : Z) :
  Zpos (Pos.size q) <= 53 -> 53 - Zpos (Pos.size q) <= k ->
  -1074 <= e + k - (53 - Zpos (Pos.size q)) <= 971 ->
  binary_round_aux prec emax false (Zpos (shl q k)) e loc_Exact
  = canon q (e + k).
Proof.
  intros Hq Hk He. pose proof (Pos2Z.is_pos (Pos.size q)) as Hpos.
  unfold canon.
  replace (Zpos (Pos.size q) - 53 + (e + k)) with (e + k - (53 - Zpos (Pos.size q))) by lia.
  destruct (Z.eq_dec k (53 - Zpos (Pos.size q))) as [->|Hne].
  - replace (e + (53 - Z.pos (Pos.size q)) - (53 - Z.pos (Pos.size q))) with e in * by lia.
    apply round_aux_53; [rewrite shl_size by lia; lia | lia].
  - unfold binary_round_aux.
    set (n := k - (53 - Zpos (Pos.size q))).
    assert (shr_fexp prec emax (Zpos (shl q k)) e loc_Exact
            = ({| shr_m := Zpos (shl q (53 - Zpos (Pos.size q))); shr_r := false; shr_s := false |},
               e + n)) as ->.
    { unfold shr_fexp, Zdigits2.
      rewrite fexp_64, digits2_size, shl_size by lia.
      replace (Z.max (Z.pos (Pos.size q) + k + e - 53) (-1074) - e) with n by lia.
      destruct n as [|p|p] eqn:Hn; [lia| |lia].
      unfold shr, shr_record_of_loc.
      replace k with ((53 - Zpos (Pos.size q)) + Zpos p) at 1 by lia.
      rewrite <- shl_shl by lia.
      change (shl (shl q (53 - Z.pos (Pos.size q))) (Z.pos p))
        with (Pos.iter xO (shl q (53 - Z.pos (Pos.size q))) p).
      by rewrite shr_exact. }
    cbn [shr_m loc_of_shr_record round_nearest_even].
    rewrite shr_fexp_53 by (rewrite ?shl_size; lia). cbn [shr_m].
    rewrite fits_64 by lia. f_equal. lia.
Qed.

Lemma round_shl (q : positive) (k : Z) :
  0 <= k <= 1000 -> Zpos (Pos.size q) <= 53 ->
  binary_round prec emax false (shl q k) (- k) = canon q 0.
Proof.
  intros Hk Hq. pose proof (Pos2Z.is_pos (Pos.size q)) as Hpos.
  unfold binary_round. rewrite fexp_64, digits2_size, shl_size by lia.
  replace (Z.max (Z.pos (Pos.size q) + k + - k - 53) (-1074))
    with (Zpos (Pos.size q) - 53) by lia.
  unfold shl_align.
  destruct (Zpos (Pos.size q) - 53 - - k) as [|n|n] eqn:Hn.
  - rewrite round_aux_shl by lia. f_equal. lia.
  - rewrite round_aux_shl by lia. f_equal. lia.
  - replace (Pos.iter xO (shl q k) n) with (shl (shl q k) (Zpos n)) by reflexivity.
    rewrite shl_shl by lia.
    rewrite round_aux_shl by lia. unfold canon. f_equal. lia.
Qed.

Lemma size_53_bound (p : positive) : Zpos p < 2 ^ 53 -> Zpos (Pos.size p) <= 53.
Proof.
  intros Hp. pose proof (Pos.size_le p) as Hle.
  destruct (Z_le_gt_dec (Zpos (Pos.size p)) 53) as [|Hgt]; [done|exfalso].
  assert (2 ^ 54 <= 2 ^ Zpos (Pos.size p)) as H54 by (apply Z.pow_le_mono_r; lia).
  assert (2 ^ Zpos (Pos.size p) <= Zpos p~0) as H2.
  { rewrite <- Pos2Z.inj_pow. by apply Pos2Z.pos_le_pos. }
  change (2 ^ 54) with (2 * 2 ^ 53) in H54. lia.
Qed.

Lemma size_bounds (p : positive) :
  2 ^ (Zpos (Pos.size p) - 1) <= Zpos p < 2 ^ Zpos (Pos.size p).
Proof.
  pose proof (Pos.size_gt p) as Hgt. pose proof (Pos.size_le p) as Hle.
  apply Pos2Z.pos_lt_pos in Hgt. apply Pos2Z.pos_le_pos in Hle.
  rewrite Pos2Z.inj_pow in Hgt, Hle.
  assert (2 ^ Zpos (Pos.size p) = 2 * 2 ^ (Zpos (Pos.size p) - 1)) as E.
  { rewrite <- Z.pow_succ_r by lia. f_equal. lia. }
  lia.
Qed.

Lemma shl_align_fst (m : positive) (e e' : Z) :
  e' <= e -> fst (shl_align m e e') = shl m (e - e').
Proof.
  intros He. unfold shl_align.
  destruct (e' - e) as [|d|d] eqn:Hd; [|lia|]; cbn [fst].
  - by replace (e - e') with 0 by lia.
  - by replace (e - e') with (Zpos d) by lia.
Qed.

Lemma canon_add (a b : positive) :
  Zpos (a + b) < 2 ^ 53 -> SF64add (canon a 0) (canon b 0) = canon (a + b) 0.
Proof.
  intros Hab.
  pose proof (size_53_bound a) as Ha. pose proof (size_53_bound b) as Hb.
  pose proof (size_53_bound (a + b) Hab) as Hs.
  pose proof (Pos2Z.is_pos (Pos.size a)) as Hpa.
  pose proof (Pos2Z.is_pos (Pos.size b)) as Hpb.
  remember (canon (a + b) 0) as r eqn:Hr.
  unfold SF64add, SFadd, canon. subst r.
  rewrite !shl_align_fst by lia. cbn [cond_Zopp].
  rewrite !shl_shl by lia.
  set (sa := Zpos (Pos.size a)) in *. set (sb := Zpos (Pos.size b)) in *.
  set (K := 53 - Z.min sa sb).
  replace (53 - sa + (sa - 53 + 0 - Z.min (sa - 53 + 0) (sb - 53 + 0))) with K by lia.
  replace (53 - sb + (sb - 53 + 0 - Z.min (sa - 53 + 0) (sb - 53 + 0))) with K by lia.
  replace (Z.min (sa - 53 + 0) (sb - 53 + 0)) with (- K) by lia.
  replace (Zpos (shl a K) + Zpos (shl b K)) with (Zpos (shl (a + b) K)).
  - apply round_shl; [lia | done].
  - rewrite !shl_Z by lia. lia.
Qed.

Lemma canon_sub (a b : positive) :
  Zpos b < Zpos a < 2 ^ 53 -> SF64sub (canon a 0) (canon b 0) = canon (a - b) 0.
Proof.
  intros Hab.
  pose proof (size_53_bound a) as Ha. pose proof (size_53_bound b) as Hb.
  pose proof (size_53_bound (a - b)) as Hs.
  assert (Zpos (a - b) = Zpos a - Zpos b) as Hsub by lia.
  pose proof (Pos2Z.is_pos (Pos.size a)) as Hpa.
  pose proof (Pos2Z.is_pos (Pos.size b)) as Hpb.
  remember (canon (a - b) 0) as r eqn:Hr.
  unfold SF64sub, SFsub, canon. subst r.
  rewrite !shl_align_fst by lia. cbn [cond_Zopp].
  rewrite !shl_shl by lia.
  set (sa := Zpos (Pos.size a)) in *. set (sb := Zpos (Pos.size b)) in *.
  set (K := 53 - Z.min sa sb).
  replace (53 - sa + (sa - 53 + 0 - Z.min (sa - 53 + 0) (sb - 53 + 0))) with K by lia.
  replace (53 - sb + (sb - 53 + 0 - Z.min (sa - 53 + 0) (sb - 53 + 0))) with K by lia.
  replace (Z.min (sa - 53 + 0) (sb - 53 + 0)) with (- K) by lia.
  replace (Zpos (shl a K) - Zpos (shl b K)) with (Zpos (shl (a - b) K)).
  - apply round_shl; [lia | lia].
  - rewrite !shl_Z by lia. lia.
Qed.

Lemma canon_mul (a b q : positive) (j : Z) :
  Zpos a < 2 ^ 53 -> Zpos b < 2 ^ 53 -> Zpos q < 2 ^ 53 -> 0 <= j <= 60 ->
  Zpos a * Zpos b = Zpos q * 2 ^ j ->
  SF64mul (canon a 0) (canon b 0) = canon q j.
Proof.
  intros Ha Hb Hq Hj Hprod.
  apply size_53_bound in Ha, Hb, Hq.
  pose proof (size_bounds a) as Ba. pose proof (size_bounds b) as Bb.
  pose proof (size_bounds q) as Bq.
  pose proof (Pos2Z.is_pos (Pos.size a)) as Hpa.
  pose proof (Pos2Z.is_pos (Pos.size b)) as Hpb.
  pose proof (Pos2Z.is_pos (Pos.size q)) as Hpq.
  set (sa := Zpos (Pos.size a)) in *. set (sb := Zpos (Pos.size b)) in *.
  set (sq := Zpos (Pos.size q)) in *.
  assert (sa + sb - 1 <= sq + j) as Hsize.
  { destruct (Z_le_gt_dec (sa + sb - 1) (sq + j)) as [|Hgt]; [done|exfalso].
    assert (2 ^ (sq + j) <= 2 ^ (sa - 1 + (sb - 1))) as Hpow
      by (apply Z.pow_le_mono_r; lia).
    rewrite !Z.pow_add_r in Hpow by lia.
    assert (0 < 2 ^ j) by (apply Z.pow_pos_nonneg; lia).
    assert (0 < 2 ^ (sa - 1)) by (apply Z.pow_pos_nonneg; lia).
    assert (0 < 2 ^ (sb - 1)) by (apply Z.pow_pos_nonneg; lia).
    nia. }
  remember (canon q j) as r eqn:Hr.
  unfold SF64mul, SFmul, canon. cbn [xorb]. subst r.
  fold sa sb.
  replace (Zpos (shl a (53 - sa) * shl b (53 - sb)))
    with (Zpos (shl q (j + (53 - sa) + (53 - sb)))).
  - rewrite round_aux_shl by (fold sq; lia). f_equal. lia.
  - rewrite Pos2Z.inj_mul, !shl_Z by lia. rewrite !Z.pow_add_r by lia. nia.
Qed.

(** Halving: [q * 2] divided by 2. *)
Lemma canon_half (q : positive) :
  Zpos q < 2 ^ 53 -> SF64div (canon q 1) (Prim2SF 2%float) = canon q 0.
Proof.
  intros Hq. apply size_53_bound in Hq.
  pose proof (Pos2Z.is_pos (Pos.size q)) as Hpq.
  change (Prim2SF 2%float) with (S754_finite false 4503599627370496 (-51)).
  remember (canon q 0) as r eqn:Hr.
  unfold SF64div, SFdiv, canon. cbn [xorb]. subst r.
  set (sq := Zpos (Pos.size q)) in *. set (m1 := shl q (53 - sq)).
  assert (Zpos (Pos.size m1) = 53) as Hm1 by (unfold m1; rewrite shl_size; lia).
  unfold SFdiv_core_binary, Zdigits2.
  rewrite digits2_size, Hm1, fexp_64.
  change (Z.pos (digits2_pos 4503599627370496)) with 53.
  replace (Z.min (Z.max (53 + (sq - 53 + 1) - (53 + -51) - 53) (-1074))
                 (sq - 53 + 1 - -51)) with (sq - 54) by lia.
  replace (sq - 53 + 1 - -51 - (sq - 54)) with 53 by lia.
  rewrite Z.shiftl_mul_pow2 by lia.
  assert (Z.div_eucl (Zpos m1 * 2 ^ 53) 4503599627370496 = (Zpos m1 * 2, 0)) as ->.
  { rewrite (surjective_pairing (Z.div_eucl _ _)).
    change (fst (Z.div_eucl (Zpos m1 * 2 ^ 53) 4503599627370496))
      with ((Zpos m1 * 2 ^ 53) / 4503599627370496).
    change (snd (Z.div_eucl (Zpos m1 * 2 ^ 53) 4503599627370496))
      with ((Zpos m1 * 2 ^ 53) mod 4503599627370496).
    replace (Zpos m1 * 2 ^ 53) with ((Zpos m1 * 2) * 4503599627370496) by lia.
    by rewrite Z.div_mul, Z.mod_mul by lia. }
  change (new_location 4503599627370496 0) with loc_Exact.
  replace (Zpos m1 * 2) with (Zpos (shl q (54 - sq)))
    by (unfold m1; rewrite !shl_Z by lia;
        replace (54 - sq) with (53 - sq + 1) by lia; rewrite Z.pow_add_r by lia; lia).
  rewrite round_aux_shl by (fold sq; lia). f_equal. lia.
Qed.

Lemma canon_compare (a b : positive) :
  Zpos a < 2 ^ 53 -> Zpos b < 2 ^ 53 ->
  SFcompare (canon a 0) (canon b 0) = Some (a ?= b)%positive.
Proof.
  intros Ha Hb. apply size_53_bound in Ha, Hb. unfold SFcompare, canon. f_equal.
  pose proof (size_bounds a) as Ba. pose proof (size_bounds b) as Bb.
  pose proof (Pos2Z.is_pos (Pos.size a)) as Hpa.
  pose proof (Pos2Z.is_pos (Pos.size b)) as Hpb.
  set (sa := Zpos (Pos.size a)) in *. set (sb := Zpos (Pos.size b)) in *.
  destruct (Z.compare_spec (sa - 53 + 0) (sb - 53 + 0)) as [He|He|He].
  - assert (sa = sb) as Hs by lia. rewrite Hs.
    rewrite Pos.compare_cont_spec.
    replace (Pos.switch_Eq Eq (shl a (53 - sb) ?= shl b (53 - sb))%positive)
      with (shl a (53 - sb) ?= shl b (53 - sb))%positive by (by destruct (_ ?= _)%positive).
    rewrite !Pos2Z.inj_compare, !shl_Z by lia.
    assert (0 < 2 ^ (53 - sb)) by (apply Z.pow_pos_nonneg; lia).
    destruct (Z.compare_spec (Zpos a) (Zpos b)) as [E|E|E].
    + rewrite E. apply Z.compare_refl.
    + apply Z.compare_lt_iff. nia.
    + apply Z.compare_gt_iff. nia.
  - symmetry. apply Pos.compare_lt_iff, Pos2Z.pos_lt_pos.
    assert (2 ^ sa <= 2 ^ (sb - 1)) by (apply Z.pow_le_mono_r; lia). lia.
  - symmetry. apply Pos.compare_gt_iff, Pos2Z.pos_lt_pos.
    assert (2 ^ sb <= 2 ^ (sa - 1)) by (apply Z.pow_le_mono_r; lia). lia.
Qed.

(** *** The integers below 2^53 as binary64 numbers *)

Lemma Prim2SF_of_pos (p : positive) :
  Zpos p < 2 ^ 53 -> Prim2SF (of_Z (Zpos p)) = canon p 0.
Proof.
  intros Hp. unfold of_Z. cbn [Z.ltb Z.compare].
  rewrite of_uint63_spec, Uint63.of_Z_spec, Z.mod_small.
  - apply (round_shl p 0); [lia | by apply size_53_bound].
  - split; [lia|]. apply Z.lt_trans with (2 ^ 53); [done | reflexivity].
Qed.

Lemma Prim2SF_of_0 : Prim2SF (of_Z 0) = S754_zero false.
Proof. reflexivity. Qed.

Lemma add_exact (a b : Z) :
  0 <= a -> 0 <= b -> a + b < 2 ^ 53 -> (of_Z a + of_Z b)%float = of_Z (a + b).
Proof.
  intros Ha Hb Hab. apply Prim2SF_inj. rewrite add_spec.
  destruct a as [|a|a], b as [|b|b]; try lia.
  - reflexivity.
  - change (0 + Zpos b) with (Zpos b).
    rewrite Prim2SF_of_0, Prim2SF_of_pos by lia. reflexivity.
  - change (Zpos a + 0) with (Zpos a).
    rewrite Prim2SF_of_0, Prim2SF_of_pos by lia. reflexivity.
  - change (Zpos a + Zpos b) with (Zpos (a + b)) in *.
    rewrite !Prim2SF_of_pos by lia. by apply canon_add.
Qed.

Lemma sub_exact (a b : Z) :
  0 <= b < a -> a < 2 ^ 53 -> (of_Z a - of_Z b)%float = of_Z (a - b).
Proof.
  intros Hb Ha. apply Prim2SF_inj. rewrite sub_spec.
  destruct a as [|a|a], b as [|b|b]; try lia.
  - change (Zpos a - 0) with (Zpos a).
    rewrite Prim2SF_of_0, Prim2SF_of_pos by lia. reflexivity.
  - replace (Zpos a - Zpos b) with (Zpos (a - b)) by lia.
    rewrite !Prim2SF_of_pos by lia. apply canon_sub; lia.
Qed.

Lemma compare_exact (a b : Z) :
  0 <= a < 2 ^ 53 -> 0 <= b < 2 ^ 53 ->
  SFcompare (Prim2SF (of_Z a)) (Prim2SF (of_Z b)) = Some (a ?= b).
Proof.
  intros Ha Hb. destruct a as [|a|a], b as [|b|b]; try lia.
  - reflexivity.
  - rewrite Prim2SF_of_0, Prim2SF_of_pos by lia. reflexivity.
  - rewrite Prim2SF_of_0, Prim2SF_of_pos by lia. reflexivity.
  - rewrite !Prim2SF_of_pos, canon_compare by lia. by rewrite Pos2Z.inj_compare.
Qed.

Lemma leb_exact (a b : Z) :
  0 <= a < 2 ^ 53 -> 0 <= b < 2 ^ 53 -> (of_Z a <=? of_Z b)%float = (a <=? b).
Proof.
  intros Ha Hb. rewrite leb_spec. unfold SFleb. rewrite compare_exact by done.
  unfold Z.leb. by destruct (a ?= b).
Qed.

Lemma eqb_exact (a b : Z) :
  0 <= a < 2 ^ 53 -> 0 <= b < 2 ^ 53 -> (of_Z a =? of_Z b)%float = (a =? b).
Proof.
  intros Ha Hb. rewrite FloatAxioms.eqb_spec. unfold SFeqb. rewrite compare_exact by done.
  rewrite Z.eqb_compare. by destruct (a ?= b).
Qed.

Lemma mul_half_exact (a b t : Z) :
  0 <= a < 2 ^ 53 -> 0 <= b < 2 ^ 53 -> 0 <= t < 2 ^ 53 -> a * b = t * 2 ->
  ((of_Z a * of_Z b) / 2)%float = of_Z t.
Proof.
  intros Ha Hb Ht Hab.
  destruct a as [|a|a]; [| |lia].
  { assert (t = 0) as -> by lia. destruct b as [|b|b]; [reflexivity| |lia].
    apply Prim2SF_inj. rewrite div_spec, mul_spec, Prim2SF_of_0, Prim2SF_of_pos by lia.
    reflexivity. }
  destruct b as [|b|b]; [| |lia].
  { assert (t = 0) as -> by lia.
    apply Prim2SF_inj. rewrite div_spec, mul_spec, Prim2SF_of_0, Prim2SF_of_pos by lia.
    reflexivity. }
  destruct t as [|t|t]; [lia| |lia].
  apply Prim2SF_inj. rewrite div_spec, mul_spec, !Prim2SF_of_pos by lia.
  rewrite (canon_mul a b t 1) by lia. apply canon_half; lia.
Qed.

(** *** Classification and the integer part *)

Lemma isFinite_spec (x : float) :
  isFinite x = match Prim2SF x with
               | S754_zero _ | S754_finite _ _ _ => true
               | _ => false
               end.
Proof.
  unfold isFinite, is_finite, is_nan, is_infinity.
  rewrite !FloatAxioms.eqb_spec, abs_spec.
  change (Prim2SF infinity) with (S754_infinity false).
  destruct (Prim2SF x) as [s|s| |s m e]; try reflexivity.
  - by destruct s.
  - unfold SFabs, SFeqb, SFcompare.
    rewrite Z.compare_refl, Pos.compare_cont_refl.
    by destruct s.
Qed.

Lemma leb_0_spec (x : float) :
  (x <=? 0)%float = SFleb (Prim2SF x) (S754_zero false).
Proof. by rewrite leb_spec. Qed.

Lemma of_Z_finite (z : Z) : 0 <= z < 2 ^ 53 -> isFinite (of_Z z) = true.
Proof.
  intros Hz. rewrite isFinite_spec. destruct z as [|p|p]; [reflexivity| |lia].
  by rewrite Prim2SF_of_pos by lia.
Qed.

Lemma of_Z_positive (z : Z) : 0 < z < 2 ^ 53 -> (of_Z z <=? 0)%float = false.
Proof.
  intros Hz. change 0%float with (of_Z 0). rewrite leb_exact by lia.
  apply Z.leb_gt; lia.
Qed.

Lemma floor_Z_of_Z (z : Z) : 0 <= z < 2 ^ 53 -> floor_Z (of_Z z) = z.
Proof.
  intros Hz. unfold floor_Z. destruct z as [|p|p]; [reflexivity| |lia].
  rewrite Prim2SF_of_pos by lia. unfold canon.
  pose proof (size_53_bound p (proj2 Hz)) as Hs.
  pose proof (Pos2Z.is_pos (Pos.size p)) as Hp.
  set (sp := Zpos (Pos.size p)) in *.
  destruct (Z.leb_spec 0 (sp - 53 + 0)) as [He|He].
  - replace (53 - sp) with 0 by lia. replace (sp - 53 + 0) with 0 by lia. reflexivity.
  - rewrite Z.shiftr_div_pow2, shl_Z by lia.
    replace (- (sp - 53 + 0)) with (53 - sp) by lia.
    apply Z.div_mul. apply Z.pow_nonzero; lia.
Qed.

Lemma floor_Z_nonneg (x : float) : (x <=? 0)%float = false -> 0 <= floor_Z x.
Proof.
  rewrite leb_0_spec. unfold floor_Z.
  destruct (Prim2SF x) as [s|s| |s m e]; try done.
  intros Hpos. destruct s; [done|].
  destruct (0 <=? e); [apply Z.shiftl_nonneg | apply Z.shiftr_nonneg]; lia.
Qed.

(** [Math.floor] of a positive finite number below 2^53 is the number of its
    integer part. *)
Lemma floor_positive (x : float) :
  isFinite x = true -> (x <=? 0)%float = false -> floor_Z x < 2 ^ 53 ->
  floor x = of_Z (floor_Z x).
Proof.
  rewrite isFinite_spec, leb_0_spec. unfold floor, floor_Z.
  pose proof (Prim2SF_valid x) as Hvalid.
  destruct (Prim2SF x) as [s|s| |s m e] eqn:Hx; try done.
  intros _ Hpos. destruct s; [done|].
  destruct (Z.leb_spec 0 e) as [He|He]; intros Hlt.
  - rewrite Z.shiftl_mul_pow2 in * by lia.
    assert (0 < 2 ^ e) as Hpow by (apply Z.pow_pos_nonneg; lia).
    unfold valid_binary, bounded, canonical_mantissa in Hvalid.
    apply andb_prop in Hvalid as [Hcanon _]. apply Z.eqb_eq in Hcanon.
    rewrite fexp_64, digits2_size in Hcanon.
    pose proof (size_bounds m) as Bm.
    assert (Zpos (Pos.size m) = 53) as Hsize by lia.
    rewrite Hsize in Bm. change (2 ^ (53 - 1)) with (2 ^ 52) in Bm.
    assert (e = 0) as ->.
    { destruct (Z.eq_dec e 0) as [|Hne]; [done|exfalso].
      assert (2 ^ 1 <= 2 ^ e) by (apply Z.pow_le_mono_r; lia).
      change (2 ^ 53) with (2 * 2 ^ 52) in Hlt. change (2 ^ 1) with 2 in *. nia. }
    apply Prim2SF_inj. rewrite Hx, Z.mul_1_r, Prim2SF_of_pos by lia.
    unfold canon. rewrite Hsize. reflexivity.
  - reflexivity.
Qed.

End Binary64Integers.

Lemma iterate_nat_add {S R : Type} (step : S -> S + R) (a b : nat) (s : S) :
  iterate_nat step (a + b) s =
  match iterate_nat step a s with
  | inl s' => iterate_nat step b s'
  | inr r => inr r
  end.
Proof.
  revert s; induction a as [|a IH]; intros s; simpl; [reflexivity|].
  destruct (step s) as [s'|r]; [apply IH | reflexivity].
Qed.

Lemma iterate_unary {S R : Type} (step : S -> S + R) (p : positive) (s : S) :
  iterate step p s = iterate_nat step (Pos.to_nat p) s.
Proof.
  revert s; induction p as [p IH|p IH|]; intros s; simpl iterate.
  - replace (Pos.to_nat p~1) with (1 + (Pos.to_nat p + Pos.to_nat p))%nat by lia.
    rewrite iterate_nat_add.
    change (iterate_nat step 1 s)
      with (match step s with inl s' => inl s' | inr r => @inr S R r end).
    destruct (step s) as [s1|r]; [|reflexivity].
    rewrite iterate_nat_add, <- IH.
    destruct (iterate step p s1); [apply IH | reflexivity].
  - replace (Pos.to_nat p~0) with (Pos.to_nat p + Pos.to_nat p)%nat by lia.
    rewrite iterate_nat_add, <- IH.
    destruct (iterate step p s); [apply IH | reflexivity].
  - simpl. destruct (step s); reflexivity.
Qed.

(** Once the loop has returned, more fuel changes nothing. *)
Lemma iterate_nat_done {S R : Type} (step : S -> S + R) (n : nat) (s : S) (r : R) :
  step s = inr r -> iterate_nat step (Datatypes.S n) s = inr r.
Proof. intros E. cbn [iterate_nat]. by rewrite E. Qed.

Lemma tri_step (i : Z) : tri i = tri (i - 1) + i.
Proof.
  unfold tri. replace (i * (i + 1)) with ((i - 1) * (i - 1 + 1) + i * 2) by lia.
  apply Z.div_add; lia.
Qed.

Lemma tri_double (z : Z) : z * (z + 1) = tri z * 2.
Proof.
  unfold tri. destruct (Z.Even_or_Odd z) as [[k ->]|[k ->]].
  - replace (2 * k * (2 * k + 1)) with ((k * (2 * k + 1)) * 2) by lia.
    rewrite Z.div_mul; lia.
  - replace ((2 * k + 1) * (2 * k + 1 + 1)) with (((2 * k + 1) * (k + 1)) * 2) by lia.
    rewrite Z.div_mul; lia.
Qed.

Lemma tri_nonneg (z : Z) : 0 <= z -> 0 <= tri z.
Proof. intros Hz. unfold tri. apply Z.div_pos; nia. Qed.

Lemma tri_mono (a b : Z) : 0 <= a <= b -> tri a <= tri b.
Proof. intros Hab. unfold tri. apply Z.div_le_mono; nia. Qed.

Lemma tri_ge (z : Z) : 0 <= z -> z <= tri z.
Proof. intros Hz. pose proof (tri_double z). nia. Qed.

(** A sum within the safe range has far fewer than 2^53 terms. *)
Lemma tri_safe (z : Z) : 0 <= z -> tri z <= MAX_SAFE_INTEGER -> z + 1 < 2 ^ 53.
Proof.
  intros Hz Ht. pose proof (tri_double z) as Hd. unfold MAX_SAFE_INTEGER in Ht.
  destruct (Z_lt_le_dec z 4) as [|H4]; [lia|].
  assert (2 * (z + 1) <= z * (z + 1)) by nia.
  change (2 ^ 53) with 9007199254740992. lia.
Qed.

Lemma sum_1_to_tri (n : Z) : 0 <= n -> sum_1_to n = tri n.
Proof.
  intros Hn. rewrite <- (Z2Nat.id n Hn). generalize (Z.to_nat n); clear n Hn.
  unfold sum_1_to. intros k; induction k as [|k IH]; [reflexivity|].
  rewrite seqZ_S, foldr_snoc.
  assert (forall (l : list Z) a, foldr Z.add a l = a + foldr Z.add 0 l) as Hshift.
  { induction l as [|x l IHl]; intros a; simpl; [lia|]. rewrite IHl. lia. }
  rewrite Hshift, IH, (tri_step (Z.of_nat (Datatypes.S k))).
  replace (Z.of_nat (Datatypes.S k) - 1) with (Z.of_nat k) by lia. lia.
Qed.

(** One turn of the loop of [sum_to_n_a] while no addition rounds. *)
Lemma loop_step_continue (upto i sum : Z) :
  0 <= upto < 2 ^ 53 -> 0 <= i <= upto -> i + 1 < 2 ^ 53 ->
  0 <= sum -> sum + i < 2 ^ 53 ->
  loop_step (of_Z upto) (of_Z i, of_Z sum) = inl (of_Z (i + 1), of_Z (sum + i)).
Proof.
  intros Hupto Hi Hi1 Hsum Hsum1. unfold loop_step.
  change 1%float with (of_Z 1).
  rewrite leb_exact, !add_exact by lia.
  by rewrite (proj2 (Z.leb_le i upto)) by lia.
Qed.

Lemma loop_step_exit (upto i : Z) (sum : float) :
  0 <= upto < i -> i < 2 ^ 53 -> loop_step (of_Z upto) (of_Z i, sum) = inr sum.
Proof.
  intros Hupto Hi. unfold loop_step. rewrite leb_exact by lia.
  by rewrite (proj2 (Z.leb_gt i upto)) by lia.
Qed.

Lemma loop_exact (upto : Z) (k : nat) (i j : Z) :
  0 <= upto < 2 ^ 53 - 1 -> 1 <= i -> Z.of_nat k = j - i -> j - 1 <= upto ->
  tri (j - 1) < 2 ^ 53 ->
  iterate_nat (loop_step (of_Z upto)) k (of_Z i, of_Z (tri (i - 1)))
  = inl (of_Z j, of_Z (tri (j - 1))).
Proof.
  intros Hupto. revert i; induction k as [|k IH]; intros i Hi Hk Hj Htri.
  - cbn [iterate_nat]. by replace j with i by lia.
  - cbn [iterate_nat].
    pose proof (tri_nonneg (i - 1)) as H0. pose proof (tri_mono i (j - 1)) as H1.
    pose proof (tri_step i) as H2.
    rewrite loop_step_continue by lia.
    replace (tri (i - 1) + i) with (tri (i + 1 - 1)) by (replace (i + 1 - 1) with i; lia).
    apply IH; lia.
Qed.

(** [sum_to_n_a] on a positive finite number whose sum is in the safe range. *)
Lemma sum_to_n_a_positive (x : float) (fuel : positive) :
  isFinite x = true -> (x <=? 0)%float = false ->
  tri (floor_Z x) <= MAX_SAFE_INTEGER -> floor_Z x < Zpos fuel ->
  sum_to_n_a fuel x = Return (of_Z (tri (floor_Z x))).
Proof.
  intros Hfin Hpos Hfit Hfuel. unfold sum_to_n_a. rewrite Hfin, Hpos. cbn [negb].
  cbv zeta.
  pose proof (floor_Z_nonneg x Hpos) as Hz. pose proof (tri_safe _ Hz Hfit) as Hsafe.
  rewrite floor_positive by (done || lia).
  set (z := floor_Z x) in *.
  rewrite iterate_unary.
  replace (Pos.to_nat fuel)
    with (Z.to_nat z + Datatypes.S (Pos.to_nat fuel - Z.to_nat z - 1))%nat by lia.
  rewrite iterate_nat_add.
  change (1%float, 0%float) with (of_Z 1, of_Z (tri (1 - 1))).
  rewrite (loop_exact z (Z.to_nat z) 1 (z + 1)); unfold MAX_SAFE_INTEGER in *;
    replace (z + 1 - 1) with z by lia; try lia.
  by rewrite (iterate_nat_done _ _ _ (of_Z (tri z))) by (apply loop_step_exit; lia).
Qed.

(** The recursion of [sum_to_n_b] while no addition rounds. *)
Lemma helper_exact (depth : nat) (k : Z) :
  1 <= k <= Z.of_nat depth -> tri k <= MAX_SAFE_INTEGER ->
  helper depth (of_Z k) = Some (of_Z (tri k)).
Proof.
  revert k; induction depth as [|d IH]; intros k Hk Ht; [lia|].
  pose proof (tri_safe k ltac:(lia) Ht) as Hsafe.
  cbn [helper]. rewrite of_Z_positive by lia.
  change 1%float with (of_Z 1). rewrite eqb_exact by lia.
  destruct (Z.eqb_spec k 1) as [->|Hne]; [reflexivity|].
  rewrite sub_exact by lia.
  pose proof (tri_step k) as Hstep. pose proof (tri_nonneg (k - 1)) as H0.
  rewrite IH by lia.
  rewrite add_exact by (unfold MAX_SAFE_INTEGER in *; lia).
  do 2 f_equal. lia.
Qed.

Lemma sum_to_n_b_positive (x : float) (depth : nat) :
  isFinite x = true -> (x <=? 0)%float = false ->
  tri (floor_Z x) <= MAX_SAFE_INTEGER ->
  0 < Z.of_nat depth -> floor_Z x <= Z.of_nat depth ->
  sum_to_n_b depth x = Return (of_Z (tri (floor_Z x))).
Proof.
  intros Hfin Hpos Hfit Hd0 Hdepth. unfold sum_to_n_b. rewrite Hfin, Hpos. cbn [negb].
  cbv zeta.
  pose proof (floor_Z_nonneg x Hpos) as Hz. pose proof (tri_safe _ Hz Hfit) as Hsafe.
  rewrite floor_positive by (done || lia).
  destruct (Z.eq_dec (floor_Z x) 0) as [->|Hne].
  - destruct depth; [lia | reflexivity].
  - by rewrite helper_exact by lia.
Qed.

Lemma sum_to_n_c_positive (x : float) :
  isFinite x = true -> (x <=? 0)%float = false ->
  tri (floor_Z x) <= MAX_SAFE_INTEGER ->
  sum_to_n_c x = Return (of_Z (tri (floor_Z x))).
Proof.
  intros Hfin Hpos Hfit. unfold sum_to_n_c. rewrite Hfin, Hpos. cbn [negb].
  cbv zeta.
  pose proof (floor_Z_nonneg x Hpos) as Hz. pose proof (tri_safe _ Hz Hfit) as Hsafe.
  rewrite floor_positive by (done || lia).
  set (z := floor_Z x) in *. pose proof (tri_nonneg z Hz) as H0.
  change 1%float with (of_Z 1). rewrite add_exact by lia.
  f_equal. apply mul_half_exact; unfold MAX_SAFE_INTEGER in *; try lia.
  apply tri_double.
Qed.

Lemma sum_to_n_nonpositive (x : float) (fuel : positive) (depth : nat) :
  isFinite x = true -> (x <=? 0)%float = true ->
  sum_to_n_a fuel x = Return 0%float
  /\ sum_to_n_b depth x = Return 0%float
  /\ sum_to_n_c x = Return 0%float.
Proof.
  intros Hfin Hle. unfold sum_to_n_a, sum_to_n_b, sum_to_n_c.
  by rewrite Hfin, Hle.
Qed.

Lemma sum_to_n_a_throws (fuel : positive) (n : float) :
  throws_TypeError (sum_to_n_a fuel n) <-> isFinite n = false.
Proof.
  unfold throws_TypeError, sum_to_n_a.
  destruct (isFinite n); cbn [negb]; [|by split].
  split; [|done]. destruct (n <=? 0)%float; [done|].
  by destruct (iterate _ _ _).
Qed.

Lemma sum_to_n_b_throws (depth : nat) (n : float) :
  throws_TypeError (sum_to_n_b depth n) <-> isFinite n = false.
Proof.
  unfold throws_TypeError, sum_to_n_b.
  destruct (isFinite n); cbn [negb]; [|by split].
  split; [|done]. destruct (n <=? 0)%float; [done|].
  by destruct (helper _ _).
Qed.

Lemma sum_to_n_c_throws (n : float) :
  throws_TypeError (sum_to_n_c n) <-> isFinite n = false.
Proof.
  unfold throws_TypeError, sum_to_n_c.
  destruct (isFinite n); cbn [negb]; [|by split].
  split; [|done]. by destruct (n <=? 0)%float.
Qed.

(** The cases of [runBasicTests]: each function returns the expected
    value. *)
Example runBasicTests_pass :
  Forall (fun '(input, expected) =>
            sum_to_n_a 64 (of_Z input) = Return (of_Z expected)
            ∧ sum_to_n_b 64 (of_Z input) = Return (of_Z expected)
            ∧ sum_to_n_c (of_Z input) = Return (of_Z expected)) tests.
Proof. repeat constructor. Qed.

(** A number that is not an integer is floored first. *)
Example sum_to_n_fraction :
  sum_to_n_a 64 2.5%float = Return 3%float
  ∧ sum_to_n_b 64 2.5%float = Return 3%float
  ∧ sum_to_n_c 2.5%float = Return 3%float.
Proof. repeat split. Qed.

(** C9. For every finite number n <= 0 the three functions return 0; for
    every positive integer n whose sum n(n+1)/2 is within the safe-integer
    range each returns the number n(n+1)/2, which is 1 + 2 + ... + n
    ([sum_to_n_a] needs n + 1 loop tests, [sum_to_n_b] a call stack of
    depth n). *)
Theorem sum_to_n_closed_form :
  (forall (x : float) (fuel : positive) (depth : nat),
      isFinite x = true -> (x <=? 0)%float = true ->
      sum_to_n_a fuel x = Return 0%float
      ∧ sum_to_n_b depth x = Return 0%float
      ∧ sum_to_n_c x = Return 0%float)
  ∧ (forall (n : Z) (fuel : positive) (depth : nat),
      0 < n -> n * (n + 1) / 2 <= MAX_SAFE_INTEGER ->
      n < Z.pos fuel -> n <= Z.of_nat depth ->
      n * (n + 1) / 2 = sum_1_to n
      ∧ sum_to_n_a fuel (of_Z n) = Return (of_Z (n * (n + 1) / 2))
      ∧ sum_to_n_b depth (of_Z n) = Return (of_Z (n * (n + 1) / 2))
      ∧ sum_to_n_c (of_Z n) = Return (of_Z (n * (n + 1) / 2))).
Proof.
  split.
  - intros x fuel depth Hfin Hle. by apply sum_to_n_nonpositive.
  - intros n fuel depth Hn Hfit Hfuel Hdepth. fold (tri n) in *.
    pose proof (tri_safe n ltac:(lia) Hfit) as Hsafe.
    assert (isFinite (of_Z n) = true) as Hfin by (apply of_Z_finite; lia).
    assert ((of_Z n <=? 0)%float = false) as Hpos by (apply of_Z_positive; lia).
    pose proof (floor_Z_of_Z n ltac:(lia)) as Hfl.
    split; [symmetry; apply sum_1_to_tri; lia|].
    split; [|split].
    + rewrite sum_to_n_a_positive by (rewrite ?Hfl; done). by rewrite Hfl.
    + rewrite sum_to_n_b_positive by (rewrite ?Hfl; done || lia). by rewrite Hfl.
    + rewrite sum_to_n_c_positive by (rewrite ?Hfl; done). by rewrite Hfl.
Qed.

Lemma sum_to_n_closed_form_witness :
  10 * (10 + 1) / 2 = sum_1_to 10
  ∧ sum_to_n_a 11 (of_Z 10) = Return (of_Z (10 * (10 + 1) / 2))
  ∧ sum_to_n_b 10 (of_Z 10) = Return (of_Z (10 * (10 + 1) / 2))
  ∧ sum_to_n_c (of_Z 10) = Return (of_Z (10 * (10 + 1) / 2)).
Proof.
  apply (proj2 sum_to_n_closed_form 10 11%positive 10%nat); [lia | | lia | lia].
  unfold MAX_SAFE_INTEGER. vm_compute. discriminate.
Defined.

(** C8, as amended.  Each of the three throws the TypeError exactly when its
    argument is not a finite number; and for every finite number whose sum
    fits within Number.MAX_SAFE_INTEGER the three return one and the same
    value once the loop and the recursion are given room to finish. *)
Theorem sum_to_n_agree_in_safe_range :
  (forall (n : float) (fuel : positive) (depth : nat),
      (throws_TypeError (sum_to_n_a fuel n) <-> isFinite n = false)
      ∧ (throws_TypeError (sum_to_n_b depth n) <-> isFinite n = false)
      ∧ (throws_TypeError (sum_to_n_c n) <-> isFinite n = false))
  ∧ (forall x : float,
      isFinite x = true -> sum_fits x ->
      exists (v : float) (fuel0 : positive) (depth0 : nat),
        forall (fuel : positive) (depth : nat),
          (fuel0 <= fuel)%positive -> (depth0 <= depth)%nat ->
          sum_to_n_a fuel x = Return v
          ∧ sum_to_n_b depth x = Return v
          ∧ sum_to_n_c x = Return v).
Proof.
  split.
  - intros n fuel depth.
    split; [apply sum_to_n_a_throws | split; [apply sum_to_n_b_throws | apply sum_to_n_c_throws]].
  - intros x Hfin Hfits. destruct (x <=? 0)%float eqn:Hle.
    + exists 0%float, 1%positive, 0%nat. intros fuel depth _ _.
      by apply sum_to_n_nonpositive.
    + destruct Hfits as [Hfits|Hfits]; [congruence|].
      pose proof (floor_Z_nonneg x Hle) as Hz.
      exists (of_Z (tri (floor_Z x))), (Z.to_pos (floor_Z x + 1)),
        (Datatypes.S (Z.to_nat (floor_Z x))).
      intros fuel depth Hfuel Hdepth. split; [|split].
      * apply sum_to_n_a_positive; [done | done | done | lia].
      * apply sum_to_n_b_positive; [done | done | done | lia | lia].
      * by apply sum_to_n_c_positive.
Qed.

Lemma sum_to_n_agree_in_safe_range_witness :
  exists (v : float) (fuel0 : positive) (depth0 : nat),
    forall (fuel : positive) (depth : nat),
      (fuel0 <= fuel)%positive -> (depth0 <= depth)%nat ->
      sum_to_n_a fuel 2.5%float = Return v
      ∧ sum_to_n_b depth 2.5%float = Return v
      ∧ sum_to_n_c 2.5%float = Return v.
Proof.
  apply (proj2 sum_to_n_agree_in_safe_range 2.5%float); [reflexivity|].
  right. vm_compute. discriminate.
Defined.

(** C8 as stated fails.  At n = 134217730 = 2^27 + 2 the sum passes 2^53:
    the loop of [sum_to_n_a] rounds at its last additions and returns
    9007199590285314, the formula of [sum_to_n_c] rounds its product and
    returns 9007199590285316 (the exact sum is 9007199590285315). *)
Lemma sum_to_n_a_c_differ :
  isFinite 134217730%float = true
  ∧ sum_to_n_a 134217731 134217730%float = Return 9007199590285314%float
  ∧ sum_to_n_c 134217730%float = Return 9007199590285316%float
  ∧ sum_to_n_a 134217731 134217730%float <> sum_to_n_c 134217730%float.
Proof.
  assert (sum_to_n_a 134217731 134217730%float = Return 9007199590285314%float) as Ha.
  { unfold sum_to_n_a.
    change (isFinite 134217730%float) with true.
    change (134217730 <=? 0)%float with false. cbn [negb].
    change (floor 134217730%float) with (of_Z 134217730).
    rewrite iterate_unary.
    replace (Pos.to_nat 134217731) with (Z.to_nat 134217727 + 4)%nat by lia.
    rewrite iterate_nat_add.
    change (1%float, 0%float) with (of_Z 1, of_Z (tri (1 - 1))).
    rewrite (loop_exact 134217730 (Z.to_nat 134217727) 1 134217728)
      by (lia || reflexivity).
    reflexivity. }
  assert (sum_to_n_c 134217730%float = Return 9007199590285316%float) as Hc
    by reflexivity.
  split; [reflexivity | split; [exact Ha | split; [exact Hc |]]].
  rewrite Ha, Hc. intros E.
  apply (f_equal (fun c => match c with
                           | Return v => PrimFloat.eqb v 9007199590285314%float
                           | _ => false
                           end)) in E.
  discriminate E.
Qed.

End SumToNFacts.

(** ** problem5: GET /books/:id *)
Section BooksFacts.
Import Books.

Lemma find_by_id_None (db : list Book) (i : string) :
  List.find (fun b => bool_decide (id b = i)) db = None <->
  forall b, b ∈ db -> id b <> i.
Proof.
  induction db as [|x db IH]; simpl.
  - split; [|done]. intros _ b Hb. by apply elem_of_nil in Hb.
  - case_bool_decide as Hx.
    + split; [done|]. intros Hall. destruct (Hall x); [left | done].
    + rewrite IH. split.
      * intros Hall b Hb. apply elem_of_cons in Hb as [->|Hb]; [done | by apply Hall].
      * intros Hall b Hb. apply Hall. by right.
Qed.

Lemma find_by_id_Some (db : list Book) (i : string) (b : Book) :
  NoDup (id <$> db) -> b ∈ db -> id b = i ->
  List.find (fun b => bool_decide (id b = i)) db = Some b.
Proof.
  induction db as [|x db IH]; simpl; intros Hnd Hb Hi.
  - by apply elem_of_nil in Hb.
  - apply NoDup_cons in Hnd as [Hx Hnd].
    apply elem_of_cons in Hb as [->|Hb].
    + by rewrite bool_decide_eq_true_2.
    + rewrite bool_decide_eq_false_2; [by apply IH|].
      intros Hxi. apply Hx. rewrite Hxi, <- Hi. by apply list_elem_of_fmap_2.
Qed.

(** C10. GET /books/:id answers 404 with { message: 'Book not found' }
    exactly when no row of the table has that id; when a row has it, the
    answer is 200 with that row (the id being the primary key); and the table
    after the request is the table before it. *)
Theorem getBookHandler_lookup (db : list Book) (req : Request) :
  snd (getBookHandler db req) = db
  ∧ (fst (getBookHandler db req) = Sent not_found
     <-> forall b, b ∈ db -> id b <> params_id req)
  ∧ (forall b, NoDup (id <$> db) -> b ∈ db -> id b = params_id req ->
       fst (getBookHandler db req) = Sent (ok b)).
Proof.
  unfold getBookHandler, getById, findUnique.
  split; [|split].
  - by destruct (List.find _ db).
  - rewrite <- find_by_id_None. by destruct (List.find _ db).
  - intros b Hnd Hb Hi. by rewrite (find_by_id_Some db _ b Hnd Hb Hi).
Qed.

Lemma getBookHandler_lookup_witness :
  fst (getBookHandler [clean_code] {| params_id := "b1" |}) = Sent (ok clean_code)
  ∧ fst (getBookHandler [clean_code] {| params_id := "b2" |}) = Sent not_found.
Proof.
  split.
  - apply (proj2 (proj2 (getBookHandler_lookup [clean_code] {| params_id := "b1" |}))).
    + apply NoDup_singleton.
    + apply list_elem_of_singleton. reflexivity.
    + reflexivity.
  - apply (proj1 (proj2 (getBookHandler_lookup [clean_code] {| params_id := "b2" |}))).
    intros b Hb. apply list_elem_of_singleton in Hb as ->. discriminate.
Defined.

End BooksFacts.

(** ** The realtime leaderboard: the store *)
Section StoreFacts.
Import Leaderboard.

Lemma total_delta_cons (u : string) (e : ScoreEvent) (l : list ScoreEvent) :
  total_delta u (e :: l)
  = (if bool_decide (user_id e = u) then delta e else 0) + total_delta u l.
Proof. unfold total_delta; simpl. case_bool_decide; lia. Qed.

Lemma total_delta_perm (u : string) (l k : list ScoreEvent) :
  l ≡ₚ k -> total_delta u l = total_delta u k.
Proof.
  induction 1 as [|x l k _ IH|x y l|l k m _ IH1 _ IH2].
  - reflexivity.
  - rewrite !total_delta_cons. lia.
  - rewrite !total_delta_cons. lia.
  - congruence.
Qed.

Lemma remove_dups_same_elements (l k : list ScoreEvent) :
  (forall x, x ∈ l <-> x ∈ k) -> remove_dups l ≡ₚ remove_dups k.
Proof.
  intros Hlk. apply NoDup_Permutation; [apply NoDup_remove_dups..|].
  intros x. by rewrite !elem_of_remove_dups.
Qed.

Lemma remove_dups_snoc_old (l : list ScoreEvent) (e : ScoreEvent) :
  e ∈ l -> remove_dups (l ++ [e]) ≡ₚ remove_dups l.
Proof.
  intros He. apply remove_dups_same_elements. intros x.
  rewrite elem_of_app, list_elem_of_singleton.
  split; [intros [Hx| ->]; done | by left].
Qed.

Lemma remove_dups_snoc_new (l : list ScoreEvent) (e : ScoreEvent) :
  e ∉ l -> remove_dups (l ++ [e]) ≡ₚ e :: remove_dups l.
Proof.
  intros He. apply NoDup_Permutation.
  - apply NoDup_remove_dups.
  - apply NoDup_cons. split; [by rewrite elem_of_remove_dups | apply NoDup_remove_dups].
  - intros x. rewrite elem_of_cons, !elem_of_remove_dups, elem_of_app, list_elem_of_singleton.
    tauto.
Qed.

Lemma apply_all_snoc (cfg : Config) (db : Database) (l : list ScoreEvent) (e : ScoreEvent) :
  apply_all cfg db (l ++ [e]) = snd (applyDelta cfg (apply_all cfg db l) e).
Proof. unfold apply_all. by rewrite foldl_app. Qed.

(** One transaction, case by case. *)
Lemma applyDelta_check (cfg : Config) (db : Database) (ev : ScoreEvent) :
  delta_check cfg (delta ev) = false -> applyDelta cfg db ev = (CheckViolation, db).
Proof. intros H. unfold applyDelta. by rewrite H. Qed.

Lemma applyDelta_unique (cfg : Config) (db : Database) (ev : ScoreEvent) :
  delta_check cfg (delta ev) = true -> is_Some (score_events db !! event_id ev) ->
  applyDelta cfg db ev = (UniqueViolation (current_score db (user_id ev)), db).
Proof. intros H [x Hx]. unfold applyDelta. by rewrite H, Hx. Qed.

Lemma applyDelta_commit (cfg : Config) (db : Database) (ev : ScoreEvent) :
  delta_check cfg (delta ev) = true -> score_events db !! event_id ev = None ->
  applyDelta cfg db ev
  = (Committed (current_score db (user_id ev) + delta ev),
     {| user_scores :=
          <[user_id ev := {| score := current_score db (user_id ev) + delta ev;
                             updated_at := ingested_at ev |}]> (user_scores db);
        score_events := <[event_id ev := ev]> (score_events db) |}).
Proof.
  intros H Hn. unfold applyDelta, current_score. rewrite H, Hn. cbn [negb].
  destruct (user_scores db !! user_id ev) as [row|] eqn:Hrow.
  - by rewrite Hrow.
  - rewrite lookup_insert_eq. cbn [score]. by rewrite insert_insert_eq.
Qed.

Lemma delta_check_bounds (cfg : Config) (d : Z) :
  delta_check cfg d = true <-> 0 < d < cap cfg.
Proof.
  unfold delta_check. rewrite andb_true_iff, !bool_decide_eq_true. lia.
Qed.

(** The store after the events [l], processed in this order: the recorded
    event ids are those of [l], and every score is the sum over the distinct
    events. *)
Lemma apply_all_invariant (cfg : Config) (l : list ScoreEvent) :
  (forall e, e ∈ l -> delta_check cfg (delta e) = true) ->
  (forall e1 e2, e1 ∈ l -> e2 ∈ l -> event_id e1 = event_id e2 -> e1 = e2) ->
  (forall i, is_Some (score_events (apply_all cfg empty_database l) !! i)
             <-> exists e, e ∈ l /\ event_id e = i)
  /\ (forall u, current_score (apply_all cfg empty_database l) u
                = total_delta u (remove_dups l)).
Proof.
  induction l as [|e l IH] using rev_ind; intros Hok Hid.
  - split.
    + intros i. cbn. rewrite lookup_empty. split; [by intros [? ?]|].
      intros (e & He & _). by apply elem_of_nil in He.
    + intros u. reflexivity.
  - destruct IH as [IHev IHsc].
    { intros x Hx. apply Hok, elem_of_app. by left. }
    { intros x y Hx Hy. apply Hid; apply elem_of_app; by left. }
    assert (delta_check cfg (delta e) = true) as Hc.
    { apply Hok, elem_of_app. right. by apply list_elem_of_singleton. }
    rewrite apply_all_snoc. set (dbl := apply_all cfg empty_database l) in *.
    destruct (score_events dbl !! event_id e) as [x|] eqn:Hx.
    + (* the id is recorded already: this very event was applied before *)
      assert (e ∈ l) as Hel.
      { destruct (proj1 (IHev (event_id e))) as (e' & He' & Heq); [by rewrite Hx|].
        rewrite <- (Hid e' e); [done| | |done]; apply elem_of_app;
          [by left | right; by apply list_elem_of_singleton]. }
      rewrite applyDelta_unique by (done || by rewrite Hx). cbn [snd]. split.
      * intros i. rewrite IHev. split; intros (y & Hy & Hyi); exists y; split; try done.
        -- apply elem_of_app. by left.
        -- apply elem_of_app in Hy as [Hy|Hy]; [done|].
           apply list_elem_of_singleton in Hy. by subst y.
      * intros u. rewrite IHsc. symmetry. by apply total_delta_perm, remove_dups_snoc_old.
    + assert (e ∉ l) as Hel.
      { intros Hel. assert (is_Some (score_events dbl !! event_id e)) as [? ?]; [|congruence].
        apply IHev. by exists e. }
      rewrite applyDelta_commit by done. cbn [snd]. split.
      * intros i. cbn [score_events]. destruct (decide (event_id e = i)) as [<-|Hne].
        -- rewrite lookup_insert_eq. split; [|by eauto]. intros _. exists e. split; [|done].
           apply elem_of_app. right. by apply list_elem_of_singleton.
        -- rewrite lookup_insert_ne by done. rewrite IHev.
           split; intros (y & Hy & Hyi); exists y; split; try done.
           ++ apply elem_of_app. by left.
           ++ apply elem_of_app in Hy as [Hy|Hy]; [done|].
              apply list_elem_of_singleton in Hy. by subst y.
      * intros u. rewrite (total_delta_perm u _ _ (remove_dups_snoc_new l e Hel)).
        rewrite total_delta_cons, <- IHsc. unfold current_score at 1. cbn [user_scores].
        case_bool_decide as Hu.
        -- subst u. by rewrite lookup_insert_eq, Z.add_comm.
        -- rewrite lookup_insert_ne by done. reflexivity.
Qed.

(** C1. For every user and every sequence of accepted events (their deltas
    pass the schema's CHECK, and an event id names one event), processed in
    any order, the final score is the sum of the deltas of the distinct events
    of that user: duplicates count once, the order does not matter. *)
Theorem final_score_is_sum_of_distinct_deltas
    (cfg : Config) (evs processed : list ScoreEvent) (u : string) :
  (forall e, e ∈ evs -> delta_check cfg (delta e) = true) ->
  (forall e1 e2, e1 ∈ evs -> e2 ∈ evs -> event_id e1 = event_id e2 -> e1 = e2) ->
  processed ≡ₚ evs ->
  current_score (apply_all cfg empty_database processed) u
  = total_delta u (remove_dups evs).
Proof.
  intros Hok Hid Hperm.
  destruct (apply_all_invariant cfg processed) as [_ Hsc].
  - intros e He. apply Hok. by rewrite <- Hperm.
  - intros e1 e2 H1 H2. apply Hid; by rewrite <- Hperm.
  - rewrite Hsc. apply total_delta_perm, remove_dups_same_elements.
    intros x. by rewrite Hperm.
Qed.

(** C6. Every event recorded in [score_events] carries a delta with
    0 < delta < cap: a transaction whose event violates the bound ends in a
    CHECK violation and leaves the store as it was, a committed one has its
    delta within the bound, and so has every row after any sequence of
    transactions. *)
Theorem delta_bound_enforced (cfg : Config) :
  (forall db ev, ~ (0 < delta ev < cap cfg) -> applyDelta cfg db ev = (CheckViolation, db))
  /\ (forall db ev new db',
        applyDelta cfg db ev = (Committed new, db') -> 0 < delta ev < cap cfg)
  /\ (forall evs i row,
        score_events (apply_all cfg empty_database evs) !! i = Some row ->
        0 < delta row < cap cfg).
Proof.
  split; [|split].
  - intros db ev Hbad. apply applyDelta_check.
    destruct (delta_check cfg (delta ev)) eqn:Hc; [|done].
    by apply delta_check_bounds in Hc.
  - intros db ev new db' Happ. apply delta_check_bounds.
    destruct (delta_check cfg (delta ev)) eqn:Hc; [done|].
    by rewrite applyDelta_check in Happ.
  - intros evs. induction evs as [|e l IH] using rev_ind; intros i row Hrow.
    + cbn in Hrow. by rewrite lookup_empty in Hrow.
    + rewrite apply_all_snoc in Hrow.
      set (dbl := apply_all cfg empty_database l) in *.
      destruct (delta_check cfg (delta e)) eqn:Hc.
      * destruct (score_events dbl !! event_id e) as [x|] eqn:Hx.
        -- rewrite applyDelta_unique in Hrow by (done || by rewrite Hx). by eapply IH.
        -- rewrite applyDelta_commit in Hrow by done. cbn in Hrow.
           destruct (decide (event_id e = i)) as [<-|Hne].
           ++ rewrite lookup_insert_eq in Hrow. inversion Hrow; subst row.
              by apply delta_check_bounds.
           ++ rewrite lookup_insert_ne in Hrow by done. by eapply IH.
      * rewrite applyDelta_check in Hrow by done. by eapply IH.
Qed.

(** Two events of user "u", the first delivered twice. *)
Lemma final_score_is_sum_of_distinct_deltas_witness :
  let a := {| event_id := "01A"; user_id := "u"; delta := 5; action_type := "level_complete";
              action_token_id := "01A"; created_at := 1; ingested_at := 1 |} in
  let b := {| event_id := "01B"; user_id := "u"; delta := 7; action_type := "level_complete";
              action_token_id := "01B"; created_at := 2; ingested_at := 2 |} in
  current_score (apply_all default_config empty_database [a; a; b]) "u" = 12.
Proof.
  intros a b.
  rewrite (final_score_is_sum_of_distinct_deltas default_config [a; b; a] [a; a; b] "u").
  - reflexivity.
  - intros e He. repeat (apply elem_of_cons in He as [->|He]); try reflexivity.
    by apply elem_of_nil in He.
  - intros e1 e2 H1 H2 Hid.
    repeat (apply elem_of_cons in H1 as [->|H1]); try (by apply elem_of_nil in H1);
      repeat (apply elem_of_cons in H2 as [->|H2]); try (by apply elem_of_nil in H2);
      try reflexivity; discriminate Hid.
  - apply perm_skip, perm_swap.
Defined.

Lemma delta_bound_enforced_witness :
  let zero := {| event_id := "01A"; user_id := "u"; delta := 0; action_type := "level_complete";
                 action_token_id := "01A"; created_at := 1; ingested_at := 1 |} in
  applyDelta default_config empty_database zero = (CheckViolation, empty_database).
Proof.
  intros zero. apply (proj1 (delta_bound_enforced default_config)). cbn. lia.
Defined.

End StoreFacts.

(** ** The realtime leaderboard: admission and the pipeline *)
Section PipelineFacts.
Import Leaderboard.

Lemma admitEvent_expired (cfg : Config) (l : gmap string NonceRecord) (lim : Limiter)
    (req : Request) :
  leeway cfg < now req - exp (token req) -> admitEvent cfg l lim req = Rejected AuthError.
Proof.
  intros Hexp. unfold admitEvent, token_live.
  rewrite bool_decide_eq_false_2 by lia. by rewrite andb_false_r.
Qed.



(** A rejected request changes nothing. *)
Lemma ingest_Rejected (cfg : Config) (st : Engine) (req : Request) (reason : Rejection) :
  admitEvent cfg (ledger st) (limiter st) req = Rejected reason ->
  ingest cfg st req = (Failed reason, st).
Proof. intros H. unfold ingest. by rewrite H. Qed.



Lemma replayed_replayed (r : Receipt) : replayed (replayed r) = replayed r.
Proof. reflexivity. Qed.



(** C7. An event whose token expired more than the leeway ago (expiry 10 s in
    the past with a leeway of 5 s, say) is rejected with AuthError, and the
    whole state is as before: no ScoreEvent row, no score change, nothing
    recorded, cached or published. *)
Theorem expired_token_is_rejected (cfg : Config) (st : Engine) (req : Request) :
  leeway cfg < now req - exp (token req) ->
  admitEvent cfg (ledger st) (limiter st) req = Rejected AuthError
  /\ ingest cfg st req = (Failed AuthError, st).
Proof.
  intros Hexp. split; [by apply admitEvent_expired|].
  by apply ingest_Rejected, admitEvent_expired.
Qed.

Lemma expired_token_is_rejected_witness :
  ingest default_config initial (request "A" "01N" 5 90 100) = (Failed AuthError, initial).
Proof.
  apply (expired_token_is_rejected default_config initial (request "A" "01N" 5 90 100)).
  cbn. lia.
Defined.




End PipelineFacts.

(** ** The realtime leaderboard: diffs *)
Section DiffFacts.
Import Leaderboard.







Lemma diff_same (previous current : TopKSnapshot) :
  version previous = version current ->
  diff previous current
  = {| fromVersion := version previous; toVersion := version current;
       removed := ∅; added := []; moved := [] |}.
Proof. intros Hv. unfold diff. by rewrite bool_decide_eq_true_2. Qed.

(** C5. [diff] is a function of its two snapshots and of nothing else; when
    their versions are equal it returns the empty Diff (nothing removed,
    added or moved), for which the publisher publishes nothing. *)
Theorem diff_of_equal_versions_is_empty (previous current : TopKSnapshot) :
  version previous = version current ->
  removed (diff previous current) = ∅
  /\ added (diff previous current) = []
  /\ moved (diff previous current) = []
  /\ diff_empty (diff previous current) = true
  /\ forall snapshotForResync full_due bus,
       publish (diff previous current) snapshotForResync full_due bus = bus.
Proof.
  intros Hv. rewrite (diff_same _ _ Hv). repeat split.
Qed.

Lemma diff_of_equal_versions_is_empty_witness :
  diff_empty (diff board_AB board_AB) = true.
Proof.
  apply (diff_of_equal_versions_is_empty board_AB board_AB eq_refl).
Defined.

#[local] Instance rank_le_total : Total rank_le.
Proof. intros a b. unfold rank_le. lia. Qed.

#[local] Instance rank_le_trans : Transitive rank_le.
Proof. intros a b c. unfold rank_le. lia. Qed.











Lemma board_AB_well_ranked : well_ranked (entries board_AB).
Proof. split; [|reflexivity]. by apply (bool_decide_unpack _). Qed.

Lemma board_BA_well_ranked (s : Z) : well_ranked (entries (board_BA s)).
Proof. split; [|reflexivity]. by apply (bool_decide_unpack _). Qed.



End DiffFacts.

(** ** The realtime leaderboard: versions and the broadcast stream *)
Section VersionFacts.
Import Leaderboard.









(** Two requests that reorder the board twice: versions 1 and 2 go out. *)
Example two_versions_published :
  msg_version <$> bus (run default_config initial
                         [request "A" "01N" 5 30 0; request "B" "01M" 7 31 1])
  = [1; 2].
Proof. reflexivity. Qed.

End VersionFacts.

(** ** problem4/sum.ts beyond the safe range *)
Section SumToNMore.
Import SumToN SumToNSums.

(** Addition of binary64 numbers is commutative. *)
Lemma SFadd_comm (x y : spec_float) : SF64add x y = SF64add y x.
Proof.
  unfold SF64add, SFadd.
  destruct x as [sx|sx| |sx mx ex], y as [sy|sy| |sy my ey]; try reflexivity;
    try (by destruct sx, sy).
  by rewrite Z.add_comm, (Z.min_comm ey ex).
Qed.

Lemma add_comm (x y : float) : (x + y)%float = (y + x)%float.
Proof. apply Prim2SF_inj. rewrite !add_spec. apply SFadd_comm. Qed.

(** The mantissa of a binary64 number is below 2^53. *)
Lemma mantissa_bound (x : float) (s : bool) (m : positive) (e : Z) :
  Prim2SF x = S754_finite s m e -> Zpos m < 2 ^ 53.
Proof.
  intros Hx. pose proof (Prim2SF_valid x) as Hvalid. rewrite Hx in Hvalid.
  unfold valid_binary, bounded, canonical_mantissa in Hvalid.
  apply andb_prop in Hvalid as [Hcanon _]. apply Z.eqb_eq in Hcanon.
  rewrite fexp_64, digits2_size in Hcanon.
  pose proof (size_bounds m) as [_ Bm].
  assert (2 ^ Zpos (Pos.size m) <= 2 ^ 53) by (apply Z.pow_le_mono_r; lia). lia.
Qed.

Lemma Prim2SF_of_neg (p : positive) :
  Zpos p < 2 ^ 53 -> Prim2SF (of_Z (Zneg p)) = SFopp (canon p 0).
Proof.
  intros Hp. unfold of_Z. change (Z.neg p <? 0) with true. cbv iota.
  rewrite opp_spec. change (- Z.neg p) with (Zpos p). f_equal.
  by apply (Prim2SF_of_pos p).
Qed.

(** What [Math.floor] does to a number: nothing (NaN, infinities, zeros and
    the numbers from 2^52 on, which are integers), or it yields the number of
    the integer part, which has the sign of its argument. *)
Lemma floor_cases (x : float) :
  floor x = x
  \/ (isFinite x = true /\ (x <=? 0)%float = false
      /\ floor x = of_Z (floor_Z x) /\ 0 <= floor_Z x < 2 ^ 53)
  \/ (isFinite x = true /\ (x <=? 0)%float = true
      /\ isFinite (floor x) = true /\ (floor x <=? 0)%float = true).
Proof.
  rewrite !isFinite_spec, !leb_0_spec. unfold floor, floor_Z.
  destruct (Prim2SF x) as [s|s| |s m e] eqn:Hx; try (by left).
  pose proof (mantissa_bound x s m e Hx) as Hm.
  destruct (Z.leb_spec 0 e) as [He|He]; [by left|right].
  assert (0 < 2 ^ (- e)) as Hpow by (apply Z.pow_pos_nonneg; lia).
  destruct s.
  - right. rewrite Z.shiftr_div_pow2 by lia.
    assert (Z.neg m <= Z.neg m / 2 ^ (- e) < 0) as Hz.
    { split.
      - assert (Z.neg m * 2 ^ (- e) <= Z.neg m) by nia.
        apply Z.div_le_lower_bound; lia.
      - apply Z.div_lt_upper_bound; lia. }
    destruct (Z.neg m / 2 ^ (- e)) as [|q|q] eqn:Hq; try lia.
    rewrite Prim2SF_of_neg by lia. done.
  - left. rewrite Z.shiftr_div_pow2 by lia.
    assert (0 <= Z.pos m / 2 ^ (- e) <= Z.pos m) as Hz.
    { split; [apply Z.div_pos; lia|].
      apply Z.div_le_upper_bound; [lia|]. nia. }
    repeat split; try done; lia.
Qed.

Lemma iterate_exit {S R : Type} (step : S -> S + R) (fuel : positive) (s : S) (r : R) :
  step s = inr r -> iterate step fuel s = inr r.
Proof.
  intros E. rewrite iterate_unary.
  destruct (Pos.to_nat fuel) as [|n] eqn:Hn; [lia|].
  by apply iterate_nat_done.
Qed.

Lemma sum_to_n_of_Z_0 (fuel : positive) (depth : nat) (x : float) :
  isFinite x = true -> (x <=? 0)%float = false -> floor x = of_Z 0 ->
  sum_to_n_a fuel x = Return 0%float
  /\ sum_to_n_b (Datatypes.S depth) x = Return 0%float
  /\ sum_to_n_c x = Return 0%float.
Proof.
  intros Hfin Hpos Hfl. unfold sum_to_n_a, sum_to_n_b, sum_to_n_c.
  rewrite Hfin, Hpos, Hfl. cbn [negb]. cbv zeta.
  rewrite (iterate_exit _ _ _ 0%float) by reflexivity.
  split; [reflexivity | split; reflexivity].
Qed.

(** X1. A number that is not an integer is treated as its integer part:
    each function does on n what it does on Math.floor(n), for every number
    n whatsoever. *)
Theorem sum_to_n_of_floor (x : float) (fuel : positive) (depth : nat) :
  (0 < depth)%nat ->
  sum_to_n_a fuel x = sum_to_n_a fuel (floor x)
  /\ sum_to_n_b depth x = sum_to_n_b depth (floor x)
  /\ sum_to_n_c x = sum_to_n_c (floor x).
Proof.
  intros Hdepth. destruct depth as [|depth]; [lia|].
  destruct (floor_cases x) as [E|[(Hfin & Hpos & Hfl & Hz)|(Hfin & Hle & Hfin' & Hle')]].
  - by rewrite E.
  - destruct (Z.eq_dec (floor_Z x) 0) as [E0|Hne].
    + rewrite E0 in Hfl.
      destruct (sum_to_n_of_Z_0 fuel depth x Hfin Hpos Hfl) as (-> & -> & ->).
      rewrite Hfl. by repeat split.
    + assert (floor (of_Z (floor_Z x)) = of_Z (floor_Z x)) as Hidem.
      { rewrite floor_positive.
        - by rewrite floor_Z_of_Z by lia.
        - apply of_Z_finite; lia.
        - apply of_Z_positive; lia.
        - rewrite floor_Z_of_Z by lia. lia. }
      unfold sum_to_n_a, sum_to_n_b, sum_to_n_c.
      rewrite Hfin, Hpos, Hfl, Hidem.
      rewrite of_Z_finite, of_Z_positive by lia. done.
  - unfold sum_to_n_a, sum_to_n_b, sum_to_n_c.
    by rewrite Hfin, Hle, Hfin', Hle'.
Qed.

Lemma sum_to_n_of_floor_witness :
  sum_to_n_a 8 2.5%float = sum_to_n_a 8 (floor 2.5%float)
  /\ sum_to_n_b 8 2.5%float = sum_to_n_b 8 (floor 2.5%float)
  /\ sum_to_n_c 2.5%float = sum_to_n_c (floor 2.5%float).
Proof. apply (sum_to_n_of_floor 2.5%float 8 8). lia. Defined.

Lemma iterate_nat_snoc {S R : Type} (step : S -> S + R) (n : nat) (s : S) :
  iterate_nat step (Datatypes.S n) s =
  match iterate_nat step n s with
  | inl s' => step s'
  | inr r => inr r
  end.
Proof.
  replace (Datatypes.S n) with (n + 1)%nat by lia. rewrite iterate_nat_add.
  destruct (iterate_nat step n s) as [s'|r]; [|reflexivity].
  cbn [iterate_nat]. by destruct (step s').
Qed.

(** The loop of [sum_to_n_a] keeps an exact counter below 2^53, whatever
    the additions to [sum] round to. *)
Lemma loop_running_sum (upto : Z) (k : nat) :
  Z.of_nat k <= upto < 2 ^ 53 - 1 ->
  iterate_nat (loop_step (of_Z upto)) k (1%float, 0%float)
  = inl (of_Z (Z.of_nat k + 1), running_sum k).
Proof.
  intros Hk. induction k as [|k IH]; [reflexivity|].
  rewrite iterate_nat_snoc, IH by lia. unfold loop_step.
  rewrite leb_exact by lia. rewrite (proj2 (Z.leb_le _ _)) by lia.
  change 1%float with (of_Z 1). rewrite add_exact by lia.
  replace (Z.of_nat k + 1) with (Z.of_nat (Datatypes.S k)) by lia.
  reflexivity.
Qed.

Lemma sum_to_n_a_running_sum (x : float) (fuel : positive) :
  isFinite x = true -> (x <=? 0)%float = false ->
  floor_Z x < 2 ^ 53 - 1 -> floor_Z x < Zpos fuel ->
  sum_to_n_a fuel x = Return (running_sum (Z.to_nat (floor_Z x))).
Proof.
  intros Hfin Hpos Hlt Hfuel. unfold sum_to_n_a. rewrite Hfin, Hpos. cbn [negb].
  cbv zeta. pose proof (floor_Z_nonneg x Hpos) as Hz.
  rewrite floor_positive by (done || lia).
  set (z := floor_Z x) in *.
  rewrite iterate_unary.
  replace (Pos.to_nat fuel)
    with (Z.to_nat z + Datatypes.S (Pos.to_nat fuel - Z.to_nat z - 1))%nat by lia.
  rewrite iterate_nat_add, loop_running_sum by lia.
  by rewrite (iterate_nat_done _ _ _ (running_sum (Z.to_nat z)))
    by (apply loop_step_exit; lia).
Qed.

(** The recursion of [sum_to_n_b] performs the same additions, with the
    operands exchanged. *)
Lemma helper_running_sum (depth k : nat) :
  (1 <= k <= depth)%nat -> Z.of_nat k < 2 ^ 53 ->
  helper depth (of_Z (Z.of_nat k)) = Some (running_sum k).
Proof.
  revert k; induction depth as [|d IH]; intros k Hk Hlt; [lia|].
  cbn [helper]. rewrite of_Z_positive by lia.
  change 1%float with (of_Z 1). rewrite eqb_exact by lia.
  destruct (Z.eqb_spec (Z.of_nat k) 1) as [E|Hne].
  - replace k with 1%nat by lia. reflexivity.
  - rewrite sub_exact by lia.
    destruct k as [|k]; [lia|].
    replace (Z.of_nat (Datatypes.S k) - 1) with (Z.of_nat k) by lia.
    rewrite IH by lia. cbn [running_sum]. by rewrite add_comm.
Qed.

Lemma sum_to_n_b_running_sum (x : float) (depth : nat) :
  isFinite x = true -> (x <=? 0)%float = false ->
  floor_Z x < 2 ^ 53 -> (0 < depth)%nat -> floor_Z x <= Z.of_nat depth ->
  sum_to_n_b depth x = Return (running_sum (Z.to_nat (floor_Z x))).
Proof.
  intros Hfin Hpos Hlt Hd0 Hdepth. unfold sum_to_n_b. rewrite Hfin, Hpos. cbn [negb].
  cbv zeta. pose proof (floor_Z_nonneg x Hpos) as Hz.
  rewrite floor_positive by (done || lia).
  destruct (Z.eq_dec (floor_Z x) 0) as [->|Hne].
  - destruct depth; [lia | reflexivity].
  - rewrite <- (Z2Nat.id (floor_Z x)) at 1 by lia.
    by rewrite helper_running_sum by lia.
Qed.

(** X2. The loop and the recursion return the same number for every finite
    n below 2^53 - 1, also where the sum has left the safe range and the
    additions round: they add the same terms in the same order. *)
Theorem sum_to_n_a_b_agree (x : float) (fuel : positive) (depth : nat) :
  isFinite x = true -> floor_Z x < MAX_SAFE_INTEGER ->
  floor_Z x < Zpos fuel -> (0 < depth)%nat -> floor_Z x <= Z.of_nat depth ->
  exists v : float,
    sum_to_n_a fuel x = Return v /\ sum_to_n_b depth x = Return v.
Proof.
  intros Hfin Hlt Hfuel Hd0 Hdepth. unfold MAX_SAFE_INTEGER in Hlt.
  destruct (x <=? 0)%float eqn:Hle.
  - exists 0%float. destruct (sum_to_n_nonpositive x fuel depth Hfin Hle) as (-> & -> & _).
    done.
  - exists (running_sum (Z.to_nat (floor_Z x))). split.
    + apply sum_to_n_a_running_sum; (done || lia).
    + apply sum_to_n_b_running_sum; (done || lia).
Qed.

Lemma sum_to_n_a_b_agree_witness :
  exists v : float,
    sum_to_n_a 8 6.75%float = Return v /\ sum_to_n_b 6 6.75%float = Return v.
Proof.
  apply (sum_to_n_a_b_agree 6.75%float 8 6); try reflexivity; lia.
Defined.

(** From 2^53 on the counter of the loop stops at 2^53, where [i++] rounds
    back to [i]. *)
Lemma loop_never_exits (x : float) (m : positive) (e : Z) (n : nat) :
  Prim2SF x = S754_finite false m e -> 1 <= e ->
  (9007199254740992 <=? x)%float = true ->
  forall (j : Z) (s : float), 1 <= j <= 2 ^ 53 ->
    exists st, iterate_nat (loop_step x) n (of_Z j, s) = inl st.
Proof.
  intros Hx He Hge. induction n as [|n IH]; intros j s Hj; [by eexists|].
  cbn [iterate_nat]. unfold loop_step.
  assert ((of_Z j <=? x)%float = true) as ->.
  { destruct (Z.eq_dec j (2 ^ 53)) as [->|Hne]; [exact Hge|].
    rewrite leb_spec, Hx. destruct j as [|p|p]; try lia.
    rewrite Prim2SF_of_pos by lia. unfold canon, SFleb, SFcompare.
    pose proof (size_53_bound p ltac:(lia)) as Hs.
    by rewrite (proj2 (Z.compare_lt_iff _ _)) by lia. }
  destruct (Z_lt_le_dec (j + 1) (2 ^ 53)) as [Hlt|Hge'].
  - change 1%float with (of_Z 1). rewrite (add_exact j 1) by lia. apply IH. lia.
  - assert ((of_Z j + 1)%float = of_Z (2 ^ 53)) as ->.
    { assert (j = 2 ^ 53 - 1 \/ j = 2 ^ 53) as [-> | ->] by lia; reflexivity. }
    apply IH. lia.
Qed.

(** X3. For a finite n >= 2^53 the loop of [sum_to_n_a] never ends: the call
    is still running after any number of steps. *)
Theorem sum_to_n_a_never_returns (x : float) (fuel : positive) :
  isFinite x = true -> (9007199254740992 <=? x)%float = true ->
  sum_to_n_a fuel x = OutOfFuel.
Proof.
  intros Hfin Hge.
  assert (exists m e, Prim2SF x = S754_finite false m e /\ 1 <= e) as (m & e & Hx & He).
  { rewrite leb_spec in Hge.
    change (Prim2SF 9007199254740992) with (S754_finite false 4503599627370496 1) in Hge.
    rewrite isFinite_spec in Hfin.
    destruct (Prim2SF x) as [s|s| |s m e]; try done.
    destruct s; [done|]. exists m, e. split; [done|].
    unfold SFleb, SFcompare in Hge.
    destruct (Z.compare_spec 1 e); (done || lia). }
  unfold sum_to_n_a. rewrite Hfin. cbn [negb].
  rewrite leb_0_spec, Hx. cbn [SFleb SFcompare]. cbv zeta.
  assert (floor x = x) as -> by (unfold floor; rewrite Hx; by rewrite (proj2 (Z.leb_le 0 e)) by lia).
  rewrite iterate_unary.
  destruct (loop_never_exits x m e (Pos.to_nat fuel) Hx He Hge 1 0%float ltac:(lia))
    as [st Hst].
  change (of_Z 1) with 1%float in Hst. by rewrite Hst.
Qed.

Lemma sum_to_n_a_never_returns_witness :
  sum_to_n_a 1000 9007199254740992%float = OutOfFuel.
Proof. apply sum_to_n_a_never_returns; reflexivity. Defined.

End SumToNMore.

(** ** problem5: the Books service *)
Section BooksApiFacts.
Import SumToN Books BooksApi.

Lemma find_has_id_None (db : list Book) (i : string) :
  List.find (has_id i) db = None <-> i ∉ id <$> db.
Proof.
  unfold has_id. rewrite find_by_id_None, list_elem_of_fmap. split.
  - intros Hall (b & -> & Hb). by apply (Hall b).
  - intros Hno b Hb Hi. apply Hno. by exists b.
Qed.

Lemma find_has_id_Some (db : list Book) (i : string) (b : Book) :
  List.find (has_id i) db = Some b -> b ∈ db /\ id b = i.
Proof.
  intros Hf. apply find_some in Hf as [Hin Hid].
  split; [by apply list_elem_of_In | by apply bool_decide_eq_true_1 in Hid].
Qed.

Lemma filter_other_ids (db : list Book) (i : string) :
  i ∉ id <$> db -> filter (fun b => id b <> i) db = db.
Proof.
  induction db as [|x db IH]; [done|]. rewrite fmap_cons, not_elem_of_cons.
  intros [Hx Hdb]. rewrite filter_cons_True by done. by rewrite IH.
Qed.

Lemma string_min_inr (n : nat) (key : string) (v : option JsonValue) (s : string) :
  string_min n key v = inr s <-> v = Some (JString s) /\ (n <= String.length s)%nat.
Proof.
  unfold string_min. destruct v as [[| | |t| |]|]; try (split; [done | by intros [? _]]).
  destruct (Nat.leb_spec n (String.length t)) as [Hle|Hlt].
  - split; [by intros [= ->] | by intros [[= ->] _]].
  - split; [done | intros [[= ->] Hn]; lia].
Qed.

Lemma positive_int_inr (key : string) (v : option JsonValue) (x : float) :
  positive_int key v = inr x <->
  v = Some (JNumber x) /\ isInteger x = true /\ (0 <? x)%float = true.
Proof.
  unfold positive_int. destruct v as [[| |y| | |]|]; try (split; [done | by intros [? _]]).
  destruct (isInteger y && (0 <? y)%float) eqn:Hy.
  - apply andb_prop in Hy as [Hi Hp]. split; [by intros [= ->] | by intros [[= ->] _]].
  - split; [done|]. intros ([= ->] & Hi & Hp). by rewrite Hi, Hp in Hy.
Qed.

Lemma datetime_or_date_inr `{Platform} (key : string) (v : option JsonValue) (s : string) :
  datetime_or_date key v = inr s <-> v = Some (JString s) /\ datetime s = true.
Proof.
  unfold datetime_or_date. destruct v as [[| | |t| |]|]; try (split; [done | by intros [? _]]).
  destruct (datetime t) eqn:Ht.
  - split; [by intros [= ->] | by intros [[= ->] _]].
  - split; [done|]. intros [[= ->] Hd]. congruence.
Qed.

Lemma optional_inr {A : Type} (schema : string -> option JsonValue -> Parsed A)
    (key : string) (v : option JsonValue) (r : option A) :
  optional schema key v = inr r <->
  (v = None /\ r = None) \/ (exists a, r = Some a /\ is_Some v /\ schema key v = inr a).
Proof.
  unfold optional. destruct v as [j|].
  - destruct (schema key (Some j)) as [e|a].
    + split; [done|]. by intros [[? _]|(a & _ & _ & ?)].
    + split.
      * intros [= <-]. right. by exists a.
      * intros [[? _]|(a' & -> & _ & [= ->])]; done.
  - split.
    + intros [= <-]. by left.
    + intros [[_ ->]|(a & _ & [? ?] & _)]; done.
Qed.

(** Every issue list of a field is non-empty. *)
Lemma string_min_inl (n : nat) (key : string) (v : option JsonValue) (e : list ZodIssue) :
  string_min n key v = inl e -> e <> [].
Proof.
  unfold string_min. destruct v as [[| | |t| |]|]; try by intros [= <-].
  destruct (n <=? String.length t)%nat; [done | by intros [= <-]].
Qed.

Lemma positive_int_inl (key : string) (v : option JsonValue) (e : list ZodIssue) :
  positive_int key v = inl e -> e <> [].
Proof.
  unfold positive_int. destruct v as [[| |y| | |]|]; try by intros [= <-].
  destruct (isInteger y && (0 <? y)%float); [done | by intros [= <-]].
Qed.

Lemma datetime_or_date_inl `{Platform} (key : string) (v : option JsonValue)
    (e : list ZodIssue) :
  datetime_or_date key v = inl e -> e <> [].
Proof.
  unfold datetime_or_date. destruct v as [[| | |t| |]|]; try by intros [= <-].
  destruct (datetime t); [done | by intros [= <-]].
Qed.

Lemma optional_inl {A : Type} (schema : string -> option JsonValue -> Parsed A)
    (key : string) (v : option JsonValue) (e : list ZodIssue) :
  (forall e', schema key v = inl e' -> e' <> []) ->
  optional schema key v = inl e -> e <> [].
Proof.
  intros Hs. unfold optional. destruct v as [j|]; [|done].
  destruct (schema key (Some j)) as [e'|a] eqn:E; [|done].
  intros [= <-]. by apply Hs.
Qed.

Lemma required_inr (partial : bool) (n : nat) (key : string) (v : option JsonValue)
    (r : option string) :
  (if partial then optional (string_min n) key v
   else match string_min n key v with
        | inr a => inr (Some a)
        | inl issues => inl issues
        end) = inr r ->
  v = JString <$> r
  /\ (forall t, r = Some t -> (n <= String.length t)%nat)
  /\ (partial = false -> is_Some r).
Proof.
  destruct partial.
  - intros [[-> ->]|(a & -> & _ & Ha)]%optional_inr; [done|].
    apply string_min_inr in Ha as [-> Hn]. split; [done|]. split; [|done].
    by intros t [= <-].
  - destruct (string_min n key v) as [e|a] eqn:E; [done|]. intros [= <-].
    apply string_min_inr in E as [-> Hn]. split; [done|]. split; [|by eexists].
    by intros t [= <-].
Qed.

Lemma required_inl (partial : bool) (n : nat) (key : string) (v : option JsonValue)
    (e : list ZodIssue) :
  (if partial then optional (string_min n) key v
   else match string_min n key v with
        | inr a => inr (Some a)
        | inl issues => inl issues
        end) = inl e -> e <> [].
Proof.
  destruct partial.
  - apply optional_inl. intros e'. apply string_min_inl.
  - destruct (string_min n key v) as [e'|a] eqn:E; [|done]. intros [= <-].
    by apply string_min_inl in E.
Qed.

Lemma min_1_nonempty (t : string) : (1 <= String.length t)%nat -> t <> "".
Proof. by destruct t; [cbn; lia|]. Qed.

Lemma baseBookSchema_inr `{Platform} (partial : bool) (value : JsonValue) (p : ParsedBook) :
  baseBookSchema partial value = inr p ->
  exists o, value = JObject o /\ accepted partial o p.
Proof.
  unfold baseBookSchema. destruct value as [| | | | |o]; try done.
  cbv zeta.
  destruct (if partial then optional (string_min 1) "title" (o !! "title") else _)
    as [e1|t] eqn:E1; [done|].
  destruct (if partial then optional (string_min 1) "author" (o !! "author") else _)
    as [e2|a] eqn:E2; [done|].
  destruct (optional (string_min 0) "description" (o !! "description"))
    as [e3|d] eqn:E3; [done|].
  destruct (optional datetime_or_date "publishedAt" (o !! "publishedAt"))
    as [e4|pu] eqn:E4; [done|].
  destruct (optional positive_int "pages" (o !! "pages")) as [e5|n] eqn:E5; [done|].
  destruct (optional (string_min 5) "isbn" (o !! "isbn")) as [e6|i] eqn:E6; [done|].
  intros [= <-]. exists o. split; [done|].
  apply required_inr in E1 as (T1 & T2 & T3), E2 as (A1 & A2 & A3).
  split; cbn; try done.
  - intros t' Ht. by apply min_1_nonempty, T2.
  - intros a' Ha. by apply min_1_nonempty, A2.
  - apply optional_inr in E3 as [[-> ->]|(x & -> & _ & Hx)]; [done|].
    by apply string_min_inr in Hx as [-> _].
  - apply optional_inr in E4 as [[-> ->]|(x & -> & _ & Hx)]; [done|].
    by apply datetime_or_date_inr in Hx as [-> _].
  - intros s' ->. apply optional_inr in E4 as [[_ ?]|(x & [= <-] & _ & Hx)]; [done|].
    by apply datetime_or_date_inr in Hx as [_ ?].
  - apply optional_inr in E5 as [[-> ->]|(x & -> & _ & Hx)]; [done|].
    by apply positive_int_inr in Hx as [-> _].
  - intros x' ->. apply optional_inr in E5 as [[_ ?]|(x & [= <-] & _ & Hx)]; [done|].
    by apply positive_int_inr in Hx as [_ ?].
  - apply optional_inr in E6 as [[-> ->]|(x & -> & _ & Hx)]; [done|].
    by apply string_min_inr in Hx as [-> _].
  - intros s' ->. apply optional_inr in E6 as [[_ ?]|(x & [= <-] & _ & Hx)]; [done|].
    by apply string_min_inr in Hx as [_ ?].
Qed.

Lemma baseBookSchema_inl `{Platform} (partial : bool) (value : JsonValue)
    (issues : list ZodIssue) :
  baseBookSchema partial value = inl issues -> issues <> [].
Proof.
  unfold baseBookSchema. destruct value as [| | | | |o]; try by intros [= <-].
  cbv zeta.
  destruct (if partial then optional (string_min 1) "title" (o !! "title") else _)
    as [e1|t] eqn:E1;
  [apply required_inl in E1; intros [= <-]; cbn [issues_of];
   by destruct e1|].
  destruct (if partial then optional (string_min 1) "author" (o !! "author") else _)
    as [e2|a] eqn:E2;
  [apply required_inl in E2; intros [= <-]; cbn [issues_of app];
   by destruct e2|].
  destruct (optional (string_min 0) "description" (o !! "description"))
    as [e3|d] eqn:E3;
  [apply optional_inl in E3; [|intros ?; apply string_min_inl]; intros [= <-];
   cbn [issues_of app]; by destruct e3|].
  destruct (optional datetime_or_date "publishedAt" (o !! "publishedAt"))
    as [e4|pu] eqn:E4;
  [apply optional_inl in E4; [|intros ?; apply datetime_or_date_inl]; intros [= <-];
   cbn [issues_of app]; by destruct e4|].
  destruct (optional positive_int "pages" (o !! "pages")) as [e5|n] eqn:E5;
  [apply optional_inl in E5; [|intros ?; apply positive_int_inl]; intros [= <-];
   cbn [issues_of app]; by destruct e5|].
  destruct (optional (string_min 5) "isbn" (o !! "isbn")) as [e6|i] eqn:E6; [|done].
  apply optional_inl in E6; [|intros ?; apply string_min_inl]. intros [= <-].
  cbn [issues_of app]. by destruct e6.
Qed.

(** A positive integer number has a positive integer part. *)
Lemma positive_integer_part (x : float) :
  isInteger x = true -> (0 <? x)%float = true -> 0 < floor_Z x.
Proof.
  unfold isInteger. intros [Hfin Hint]%andb_prop Hpos.
  rewrite ltb_spec in Hpos. rewrite FloatAxioms.eqb_spec in Hint.
  rewrite isFinite_spec in Hfin.
  change (Prim2SF 0) with (S754_zero false) in Hpos.
  unfold floor, floor_Z in *.
  destruct (Prim2SF x) as [s|s| |s m e] eqn:Hx; try done.
  destruct s; [done|].
  destruct (Z.leb_spec 0 e) as [He|He].
  - rewrite Z.shiftl_mul_pow2 by lia.
    assert (0 < 2 ^ e) by (apply Z.pow_pos_nonneg; lia). nia.
  - assert (0 <= Z.shiftr (Z.pos m) (- e)) as Hz by (apply Z.shiftr_nonneg; lia).
    destruct (Z.eq_dec (Z.shiftr (Z.pos m) (- e)) 0) as [E|Hne]; [|lia].
    rewrite E in Hint. by change (Prim2SF (of_Z 0)) with (S754_zero false) in Hint.
Qed.

Lemma int_column_Some (x : float) (z : Z) :
  int_column x = Some z -> z = floor_Z x /\ isInteger x = true /\ z <= 2147483647.
Proof.
  unfold int_column.
  destruct (isInteger x) eqn:Hi; [|done].
  destruct (Z.leb_spec (-2147483648) (floor_Z x)); [|done].
  destruct (Z.leb_spec (floor_Z x) 2147483647); [|done].
  cbn. by intros [= <-].
Qed.

Lemma delete_cases (db : list Book) (i : string) :
  answer (deleteBookHandler db i) =
  if bool_decide (i ∈ id <$> db)
  then ({| http_status := 204; http_body := None |}, filter (fun b => id b <> i) db)
  else ({| http_status := 404; http_body := Some (MessageBody "Resource not found") |}, db).
Proof.
  unfold deleteBookHandler, delete.
  destruct (List.find (has_id i) db) as [old|] eqn:Hf.
  - apply find_has_id_Some in Hf as [Hin Hid].
    rewrite bool_decide_eq_true_2; [done|].
    rewrite <- Hid. by apply list_elem_of_fmap_2.
  - apply find_has_id_None in Hf. by rewrite bool_decide_eq_false_2.
Qed.

(** X4. DELETE /books/:id: when a book has the id the answer is 204 without
    a body; when none has it the answer is 404 with
    { message: 'Resource not found' } and the table is left as it was.
    Either way the table afterwards holds exactly the books of other ids,
    in the order they had. *)
Theorem deleteBookHandler_answer (db : list Book) (i : string) :
  let res := fst (answer (deleteBookHandler db i)) in
  let db' := snd (answer (deleteBookHandler db i)) in
  (i ∈ id <$> db -> res = {| http_status := 204; http_body := None |})
  /\ (i ∉ id <$> db ->
      res = {| http_status := 404; http_body := Some (MessageBody "Resource not found") |}
      /\ db' = db)
  /\ (forall b, b ∈ db' <-> b ∈ db /\ id b <> i)
  /\ db' `sublist_of` db.
Proof.
  cbv zeta. rewrite delete_cases. case_bool_decide as Hin; cbn [fst snd].
  - split; [done|]. split; [done|]. split; [|apply sublist_filter].
    intros b. rewrite list_elem_of_filter. tauto.
  - split; [done|]. split; [done|]. split; [|done].
    intros b. split; [|by intros [? _]]. intros Hb. split; [done|].
    intros <-. apply Hin. by apply list_elem_of_fmap_2.
Qed.

(** X5. A deleted book is gone: after DELETE /books/:id, whatever it
    answered, GET /books/:id answers 404 with { message: 'Book not found' },
    and a second DELETE answers 404 and changes nothing. *)
Theorem deleted_book_is_gone (db : list Book) (i : string) :
  let db' := snd (answer (deleteBookHandler db i)) in
  getBookHandler db' {| params_id := i |} = (Sent not_found, db')
  /\ answer (deleteBookHandler db' i)
     = ({| http_status := 404; http_body := Some (MessageBody "Resource not found") |}, db').
Proof.
  cbv zeta. rewrite delete_cases.
  assert (i ∉ id <$> filter (fun b => id b <> i) db) as Hgone.
  { rewrite list_elem_of_fmap. intros (b & -> & Hb).
    by apply list_elem_of_filter in Hb as [Hb _]. }
  assert (forall t : list Book, i ∉ id <$> t ->
            getBookHandler t {| params_id := i |} = (Sent not_found, t)
            /\ answer (deleteBookHandler t i)
               = ({| http_status := 404;
                     http_body := Some (MessageBody "Resource not found") |}, t)) as Hafter.
  { intros t Ht. split.
    - unfold getBookHandler, getById, findUnique. cbn [params_id].
      pose proof (proj2 (find_has_id_None t i) Ht) as Hf. unfold has_id in Hf.
      by rewrite Hf.
    - rewrite delete_cases. by rewrite bool_decide_eq_false_2. }
  case_bool_decide as Hin; cbn [snd]; by apply Hafter.
Qed.

Lemma find_app_new (db : list Book) (b : Book) :
  id b ∉ id <$> db -> List.find (has_id (id b)) (db ++ [b]) = Some b.
Proof.
  intros Hnew. induction db as [|x db IH]; cbn.
  - unfold has_id. by rewrite bool_decide_eq_true_2.
  - rewrite fmap_cons, not_elem_of_cons in Hnew. destruct Hnew as [Hx Hdb].
    unfold has_id at 1. rewrite bool_decide_eq_false_2 by done. by apply IH.
Qed.

Lemma find_app_old (db : list Book) (b : Book) (i : string) :
  i <> id b -> List.find (has_id i) (db ++ [b]) = List.find (has_id i) db.
Proof.
  intros Hi. induction db as [|x db IH]; cbn.
  - unfold has_id. by rewrite bool_decide_eq_false_2.
  - by rewrite IH.
Qed.

Lemma existsb_has_id (db : list Book) (i : string) :
  existsb (has_id i) db = false <-> i ∉ id <$> db.
Proof.
  induction db as [|x db IH]; cbn.
  - split; [intros _; apply not_elem_of_nil | done].
  - rewrite not_elem_of_cons, orb_false_iff, IH. unfold has_id.
    rewrite bool_decide_eq_false. intuition congruence.
Qed.

(** What [create] answers. *)
Lemma create_Resolved (g : Generated) (db : list Book) (data : BookInput)
    (book : Book) (db' : list Book) :
  create g db data = (Resolved book, db') ->
  db' = db ++ [book] /\ id book = new_id g /\ (new_id g ∉ id <$> db)
  /\ createdAt book = new_createdAt g /\ updatedAt book = new_updatedAt g
  /\ input_title data = Some (title book) /\ input_author data = Some (author book)
  /\ description book = assign (input_description data) None
  /\ isbn book = assign (input_isbn data) None
  /\ (exists n, checked int_column (input_pages data) = Some n /\ pages book = assign n None)
  /\ isbn_taken db (new_id g) (isbn book) = false.
Proof.
  unfold create.
  destruct (input_title data) as [t|]; [|done].
  destruct (input_author data) as [a|]; [|done].
  destruct (checked date_column _) as [published|]; [|done].
  destruct (checked int_column _) as [n|]; [|done].
  destruct (existsb _ db) eqn:Hid; [done|]. cbn [orb].
  destruct (isbn_taken _ _ _) eqn:Hisbn; [done|].
  intros [= <- <-]. cbn. apply existsb_has_id in Hid.
  repeat split; try done. by exists n.
Qed.

Lemma create_Thrown (g : Generated) (db : list Book) (data : BookInput)
    (err : Error) (db' : list Book) :
  create g db data = (Thrown err, db') ->
  db' = db /\ errorHandler err = internal_server_error.
Proof.
  unfold create.
  destruct (input_title data) as [t|]; [|by intros [= <- <-]].
  destruct (input_author data) as [a|]; [|by intros [= <- <-]].
  destruct (checked date_column _) as [published|]; [|by intros [= <- <-]].
  destruct (checked int_column _) as [n|]; [|by intros [= <- <-]].
  destruct (_ || _); [by intros [= <- <-] | done].
Qed.

(** X6. POST /books has three outcomes.  201 with the new book: the table
    gains exactly this row, at the end, under the generated id, which no
    row had.  400 with { message: 'Validation error', issues } and at least
    one issue, or 500 with { message: 'Internal Server Error' }: the table
    is left as it was.  It never answers 404. *)
Theorem createBookHandler_outcomes `{Platform} (g : Generated) (db : list Book)
    (body : JsonValue) :
  let res := fst (answer (createBookHandler g db body)) in
  let db' := snd (answer (createBookHandler g db body)) in
  (exists book,
      res = {| http_status := 201; http_body := Some (BookBody book) |}
      /\ db' = db ++ [book] /\ id book = new_id g /\ (new_id g ∉ id <$> db))
  \/ (exists issues,
      res = {| http_status := 400;
               http_body := Some (IssuesBody "Validation error" issues) |}
      /\ issues <> [] /\ db' = db)
  \/ (res = internal_server_error /\ db' = db).
Proof.
  cbv zeta. unfold createBookHandler, createBookSchema.
  destruct (baseBookSchema false body) as [issues|parsed] eqn:Hparse.
  - right; left. exists issues. apply baseBookSchema_inl in Hparse. by cbn.
  - destruct (create g db (normalizeBookInput parsed)) as [[book|err] db'] eqn:Hc.
    + left. exists book. apply create_Resolved in Hc as (-> & Hid & Hnew & _). by cbn.
    + right; right. apply create_Thrown in Hc as [-> Herr]. by cbn.
Qed.

(** X7. A created book can be read back: when POST /books answers 201 with
    a book, GET /books/:id for its id answers 200 with the same book, and
    for every other id GET answers as it did before. *)
Theorem created_book_is_found `{Platform} (g : Generated) (db : list Book)
    (body : JsonValue) (book : Book) (db' : list Book) :
  answer (createBookHandler g db body)
  = ({| http_status := 201; http_body := Some (BookBody book) |}, db') ->
  getBookHandler db' {| params_id := id book |} = (Sent (ok book), db')
  /\ (forall i, i <> id book ->
        fst (getBookHandler db' {| params_id := i |})
        = fst (getBookHandler db {| params_id := i |})).
Proof.
  unfold createBookHandler, createBookSchema.
  destruct (baseBookSchema false body) as [issues|parsed]; [done|].
  destruct (create g db (normalizeBookInput parsed)) as [[b|err] t] eqn:Hc.
  - cbn. intros [= -> ->]. apply create_Resolved in Hc as (-> & Hid & Hnew & _).
    rewrite <- Hid in Hnew.
    unfold getBookHandler, getById, findUnique. cbn [params_id]. split.
    + pose proof (find_app_new db book Hnew) as Hf. unfold has_id in Hf. by rewrite Hf.
    + intros i Hi. pose proof (find_app_old db book i Hi) as Hf. unfold has_id in Hf.
      rewrite Hf. by destruct (List.find _ db).
  - cbn. destruct err as [e|code|]; cbn; [done| |done].
    by case_bool_decide.
Qed.

Lemma created_book_is_found_witness :
  getBookHandler ([clean_code] ++ [clean_architecture_book]) {| params_id := "b7" |}
  = (Sent (ok clean_architecture_book), [clean_code] ++ [clean_architecture_book]).
Proof.
  apply (proj1 (@created_book_is_found readme_platform (generated "b7" 100) [clean_code]
                  clean_architecture clean_architecture_book
                  ([clean_code] ++ [clean_architecture_book]) eq_refl)).
Defined.

Lemma assign_of_optional {A : Type} (o : option A) : assign (of_optional o) None = o.
Proof. by destruct o. Qed.

(** X8. The book that POST /books creates carries what was submitted: the
    body is an object whose title and author are the book's (and are not
    empty), whose description and isbn are the book's where present and
    absent where the book has none, and whose pages, where present, is the
    number of the book's page count. *)
Theorem created_book_has_the_submitted_fields `{Platform} (g : Generated)
    (db : list Book) (body : JsonValue) (book : Book) (db' : list Book) :
  answer (createBookHandler g db body)
  = ({| http_status := 201; http_body := Some (BookBody book) |}, db') ->
  exists o, body = JObject o
    /\ o !! "title" = Some (JString (title book)) /\ title book <> ""
    /\ o !! "author" = Some (JString (author book)) /\ author book <> ""
    /\ o !! "description" = JString <$> description book
    /\ o !! "isbn" = JString <$> isbn book
    /\ match o !! "pages" with
       | None => pages book = None
       | Some v => exists x, v = JNumber x /\ pages book = Some (floor_Z x)
       end.
Proof.
  unfold createBookHandler, createBookSchema.
  destruct (baseBookSchema false body) as [issues|parsed] eqn:Hparse; [done|].
  apply baseBookSchema_inr in Hparse as (o & -> & Hacc).
  destruct (create g db (normalizeBookInput parsed)) as [[b|err] t] eqn:Hc.
  - cbn. intros [= -> ->].
    apply create_Resolved in Hc
      as (_ & _ & _ & _ & _ & Ht & Ha & Hd & Hi & (n & Hn & Hp) & _).
    cbn in Ht, Ha, Hd, Hi, Hn. rewrite assign_of_optional in Hd, Hi.
    destruct Hacc. exists o. rewrite Ht in *. rewrite Ha in *. rewrite Hd, Hi.
    repeat split; try done; [by eapply accepted_title_min0 | by eapply accepted_author_min0 |].
    rewrite accepted_pages0. destruct (parsed_pages parsed) as [x|]; cbn in *.
    + exists x. split; [done|]. destruct (int_column x) as [z|] eqn:Hz; [|done].
      apply int_column_Some in Hz as [-> _]. by injection Hn as <-.
    + by injection Hn as <-.
  - cbn. destruct err as [e|code|]; cbn; [done| |done]. by case_bool_decide.
Qed.

Lemma created_book_has_the_submitted_fields_witness :
  exists o, clean_architecture = JObject o
    /\ o !! "title" = Some (JString "Clean Architecture") /\ "Clean Architecture" <> ""
    /\ o !! "author" = Some (JString "Robert C. Martin") /\ "Robert C. Martin" <> ""
    /\ o !! "description" = JString <$> Some "On software design"
    /\ o !! "isbn" = JString <$> Some "9780134494166"
    /\ match o !! "pages" with
       | None => Some 300 = None
       | Some v => exists x, v = JNumber x /\ Some 300 = Some (floor_Z x)
       end.
Proof.
  apply (@created_book_has_the_submitted_fields readme_platform (generated "b7" 100)
           [clean_code] clean_architecture clean_architecture_book
           ([clean_code] ++ [clean_architecture_book]) eq_refl).
Defined.

Lemma isbn_taken_true (db : list Book) (but : string) (s : string) (b : Book) :
  b ∈ db -> isbn b = Some s -> id b <> but -> isbn_taken db but (Some s) = true.
Proof.
  intros Hb Hs Hid. cbn. apply existsb_exists. exists b.
  split; [by apply list_elem_of_In|].
  unfold has_isbn, has_id. rewrite bool_decide_eq_true_2 by done.
  by rewrite bool_decide_eq_false_2.
Qed.

(** X9. POST /books with a body the schema accepts, whose isbn is the isbn
    of a stored book, creates nothing: the unique index refuses the row, the
    error handler knows no such error, and the answer is 500 with
    { message: 'Internal Server Error' }. *)
Theorem taken_isbn_is_internal_server_error `{Platform} (g : Generated)
    (db : list Book) (o : gmap string JsonValue) (parsed : ParsedBook)
    (s : string) (b : Book) :
  createBookSchema (JObject o) = inr parsed ->
  o !! "isbn" = Some (JString s) -> b ∈ db -> isbn b = Some s ->
  answer (createBookHandler g db (JObject o)) = (internal_server_error, db).
Proof.
  intros Hparse Ho Hb Hs. unfold createBookHandler. rewrite Hparse.
  unfold createBookSchema in Hparse.
  apply baseBookSchema_inr in Hparse as (o' & [= <-] & Hacc).
  destruct Hacc. rewrite Ho in accepted_isbn0.
  destruct (parsed_isbn parsed) as [s'|] eqn:Hi; [|done]. injection accepted_isbn0 as ->.
  destruct (create g db (normalizeBookInput parsed)) as [[book|err] t] eqn:Hc.
  - exfalso. apply create_Resolved in Hc
      as (_ & Hid & Hnew & _ & _ & _ & _ & _ & Hisbn & _ & Htaken).
    cbn in Hisbn. rewrite Hi in Hisbn. cbn in Hisbn. rewrite Hisbn in Htaken.
    rewrite (isbn_taken_true db (new_id g) s' b) in Htaken; [done..|].
    intros E. apply Hnew. rewrite <- E. by apply list_elem_of_fmap_2.
  - apply create_Thrown in Hc as [-> Herr]. cbn. by rewrite Herr.
Qed.

Lemma taken_isbn_is_internal_server_error_witness :
  answer (@createBookHandler readme_platform (generated "b7" 100)
            [Build_Book "b1" "Clean Architecture" "R. C. Martin" None None None
               (Some "9780134494166") 0 0]
            clean_architecture)
  = (internal_server_error,
     [Build_Book "b1" "Clean Architecture" "R. C. Martin" None None None
        (Some "9780134494166") 0 0]).
Proof.
  eapply (@taken_isbn_is_internal_server_error readme_platform).
  - vm_compute. reflexivity.
  - vm_compute. reflexivity.
  - apply list_elem_of_singleton. reflexivity.
  - reflexivity.
Defined.

(** What [update] answers. *)
Lemma update_Resolved (now : Z) (db : list Book) (i : string) (data : BookInput)
    (book : Book) (db' : list Book) :
  update now db i data = (Resolved book, db') ->
  exists old published n,
    old ∈ db /\ id old = i
    /\ checked date_column (input_publishedAt data) = Some published
    /\ checked int_column (input_pages data) = Some n
    /\ book = {| id := i;
                 title := default (title old) (input_title data);
                 author := default (author old) (input_author data);
                 description := assign (input_description data) (description old);
                 publishedAt := assign published (publishedAt old);
                 pages := assign n (pages old);
                 isbn := assign (input_isbn data) (isbn old);
                 createdAt := createdAt old;
                 updatedAt := now |}
    /\ db' = (fun b => if bool_decide (id b = i) then book else b) <$> db.
Proof.
  unfold update.
  destruct (checked date_column _) as [published|]; [|done].
  destruct (checked int_column _) as [n|]; [|done].
  destruct (List.find (has_id i) db) as [old|] eqn:Hf; [|done].
  destruct (isbn_taken _ _ _); [done|].
  apply find_has_id_Some in Hf as [Hin Hid].
  intros [= <- <-]. exists old, published, n. by rewrite Hid.
Qed.

Lemma update_Thrown (now : Z) (db : list Book) (i : string) (data : BookInput)
    (err : Error) (db' : list Book) :
  update now db i data = (Thrown err, db') ->
  db' = db
  /\ (errorHandler err = internal_server_error
      \/ (errorHandler err
          = {| http_status := 404; http_body := Some (MessageBody "Resource not found") |}
          /\ i ∉ id <$> db)).
Proof.
  unfold update.
  destruct (checked date_column _) as [published|]; [|intros [= <- <-]; by split; [|left]].
  destruct (checked int_column _) as [n|]; [|intros [= <- <-]; by split; [|left]].
  destruct (List.find (has_id i) db) as [old|] eqn:Hf.
  - destruct (isbn_taken _ _ _); [|done]. intros [= <- <-]. by split; [|left].
  - intros [= <- <-]. apply find_has_id_None in Hf. split; [done|]. by right.
Qed.


Lemma checked_date_keeps `{Platform} (s : option string) (published : Field Z)
    (keep : option Z) :
  checked date_column
    (match s with
     | Some t => if bool_decide (t = "") then Undefined else Value (new_Date t)
     | None => Undefined
     end) = Some published ->
  (s = None -> assign published keep = keep)
  /\ (is_Some keep -> is_Some (assign published keep)).
Proof.
  destruct s as [t|]; [|by intros [= <-]].
  case_bool_decide; [by intros [= <-]|]. cbn.
  destruct (date_column (new_Date t)) as [z|]; [|done]. intros [= <-].
  split; [done|]. by eexists.
Qed.

(** X11. PUT /books/:id is a partial update.  When it answers 200, the body
    is an object, and against the stored book of this id the updated book
    has: the title, author, description and isbn of the body where the body
    has them, the stored ones where it has not; the page count of the
    body's pages where present; the stored publishedAt when the body has
    none.  No body clears a column: what was set stays set. *)
Theorem updateBookHandler_fields `{Platform} (now : Z) (db : list Book) (i : string)
    (body : JsonValue) (book : Book) (db' : list Book) :
  answer (updateBookHandler now db i body)
  = ({| http_status := 200; http_body := Some (BookBody book) |}, db') ->
  exists o old, body = JObject o /\ old ∈ db /\ id old = i
    /\ title book = match o !! "title" with Some (JString t) => t | _ => title old end
    /\ author book = match o !! "author" with Some (JString a) => a | _ => author old end
    /\ description book
       = match o !! "description" with Some (JString d) => Some d | _ => description old end
    /\ isbn book = match o !! "isbn" with Some (JString s) => Some s | _ => isbn old end
    /\ pages book
       = match o !! "pages" with Some (JNumber x) => Some (floor_Z x) | _ => pages old end
    /\ (o !! "publishedAt" = None -> publishedAt book = publishedAt old)
    /\ (is_Some (description old) -> is_Some (description book))
    /\ (is_Some (publishedAt old) -> is_Some (publishedAt book))
    /\ (is_Some (pages old) -> is_Some (pages book))
    /\ (is_Some (isbn old) -> is_Some (isbn book)).
Proof.
  unfold updateBookHandler, updateBookSchema.
  destruct (baseBookSchema true body) as [issues|parsed] eqn:Hparse; [done|].
  apply baseBookSchema_inr in Hparse as (o & -> & Hacc).
  destruct (update now db i (normalizeBookInput parsed)) as [[b|err] t] eqn:Hu.
  - cbn. intros [= -> ->].
    apply update_Resolved in Hu as (old & published & n & Hin & Hid & Hp & Hn & -> & _).
    cbn in Hp, Hn. exists o, old. destruct Hacc.
    rewrite accepted_title0, accepted_author0, accepted_description0, accepted_isbn0,
      accepted_pages0, accepted_publishedAt0.
    apply (checked_date_keeps _ _ (publishedAt old)) in Hp as [Hp1 Hp2].
    cbn [title author description isbn pages publishedAt normalizeBookInput
         input_title input_author input_description input_isbn].
    assert (pages_ok :
      assign n (pages old)
      = match JNumber <$> parsed_pages parsed with
        | Some (JNumber x) => Some (floor_Z x)
        | _ => pages old
        end).
    { destruct (parsed_pages parsed) as [x|]; cbn in *; [|by injection Hn as <-].
      destruct (int_column x) as [z|] eqn:Hz; [|done].
      apply int_column_Some in Hz as [-> _]. by injection Hn as <-. }
    repeat split; try done.
    + by destruct (parsed_title parsed).
    + by destruct (parsed_author parsed).
    + by destruct (parsed_description parsed).
    + by destruct (parsed_isbn parsed).
    + intros Hnone. apply Hp1. by destruct (parsed_publishedAt parsed).
    + destruct (parsed_description parsed); cbn; [by eexists | done].
    + rewrite pages_ok. destruct (parsed_pages parsed); cbn; [by eexists | done].
    + destruct (parsed_isbn parsed); cbn; [by eexists | done].
  - cbn. destruct err as [e|code|]; cbn; [done| |done]. by case_bool_decide.
Qed.

Lemma updateBookHandler_fields_witness :
  exists o old, new_pages = JObject o /\ old ∈ [clean_code] /\ id old = "b1"
    /\ "Clean Code" = match o !! "title" with Some (JString t) => t | _ => title old end
    /\ "Robert C. Martin"
       = match o !! "author" with Some (JString a) => a | _ => author old end
    /\ Some "A Handbook of Agile Software Craftsmanship"
       = match o !! "description" with Some (JString d) => Some d | _ => description old end
    /\ Some "9780132350884"
       = match o !! "isbn" with Some (JString s) => Some s | _ => isbn old end
    /\ Some 500
       = match o !! "pages" with Some (JNumber x) => Some (floor_Z x) | _ => pages old end
    /\ (o !! "publishedAt" = None -> Some 1217548800 = publishedAt old)
    /\ (is_Some (description old)
        -> is_Some (Some "A Handbook of Agile Software Craftsmanship"))
    /\ (is_Some (publishedAt old) -> is_Some (Some 1217548800))
    /\ (is_Some (pages old) -> is_Some (Some 500))
    /\ (is_Some (isbn old) -> is_Some (Some "9780132350884")).
Proof.
  apply (@updateBookHandler_fields readme_platform 5 [clean_code] "b1" new_pages
           {| id := "b1"; title := "Clean Code"; author := "Robert C. Martin";
              description := Some "A Handbook of Agile Software Craftsmanship";
              publishedAt := Some 1217548800; pages := Some 500;
              isbn := Some "9780132350884"; createdAt := 0; updatedAt := 5 |}
           [{| id := "b1"; title := "Clean Code"; author := "Robert C. Martin";
               description := Some "A Handbook of Agile Software Craftsmanship";
               publishedAt := Some 1217548800; pages := Some 500;
               isbn := Some "9780132350884"; createdAt := 0; updatedAt := 5 |}]
           eq_refl).
Defined.

Lemma row_ok_created `{Platform} (g : Generated) (db : list Book) (parsed : ParsedBook)
    (o : gmap string JsonValue) (partial : bool) (book : Book) (db' : list Book) :
  accepted partial o parsed ->
  create g db (normalizeBookInput parsed) = (Resolved book, db') -> row_ok book.
Proof.
  intros Hacc Hc. destruct Hacc.
  apply create_Resolved in Hc
    as (_ & _ & _ & _ & _ & Ht & Ha & Hd & Hi & (n & Hn & Hp) & _).
  cbn in Ht, Ha, Hi, Hn. rewrite assign_of_optional in Hi.
  split; [by apply accepted_title_min0|]. split; [by apply accepted_author_min0|].
  split; [|rewrite Hi; apply accepted_isbn_min0].
  rewrite Hp. destruct (parsed_pages parsed) as [x|] eqn:Hx; cbn in Hn.
  - destruct (int_column x) as [z|] eqn:Hz; [|done]. injection Hn as <-.
    intros k [= <-]. apply int_column_Some in Hz as (-> & _ & Hmax).
    destruct (accepted_pages_int0 x eq_refl). split; [|done].
    by apply positive_integer_part.
  - by injection Hn as <-.
Qed.

Lemma row_ok_updated `{Platform} (now : Z) (db : list Book) (i : string)
    (parsed : ParsedBook) (o : gmap string JsonValue) (partial : bool)
    (book : Book) (db' : list Book) :
  accepted partial o parsed -> Forall row_ok db ->
  update now db i (normalizeBookInput parsed) = (Resolved book, db') -> row_ok book.
Proof.
  intros Hacc Hdb Hu. destruct Hacc.
  apply update_Resolved in Hu as (old & published & n & Hin & Hid & Hp & Hn & -> & _).
  rewrite Forall_forall in Hdb. destruct (Hdb old Hin) as (Ot & Oa & Op & Oi).
  cbn in Hn. split; [|split; [|split]]; cbn.
  - destruct (parsed_title parsed) as [t|] eqn:E; cbn; [by apply accepted_title_min0 | done].
  - destruct (parsed_author parsed) as [a|] eqn:E; cbn; [by apply accepted_author_min0 | done].
  - destruct (parsed_pages parsed) as [x|] eqn:Hx; cbn in Hn.
    + destruct (int_column x) as [z|] eqn:Hz; [|done]. injection Hn as <-.
      intros k [= <-]. apply int_column_Some in Hz as (-> & _ & Hmax).
      destruct (accepted_pages_int0 x eq_refl). split; [|done].
      by apply positive_integer_part.
    + injection Hn as <-. intros k Hk. by apply Op.
  - destruct (parsed_isbn parsed) as [s|] eqn:E; cbn; [|done].
    intros s' [= <-]. by apply accepted_isbn_min0.
Qed.

(** X12. The stored books stay within the schema.  If every book of the
    table has a non-empty title and author, a page count (where it has
    one) that is positive and fits the INTEGER column, and an isbn (where
    it has one) of at least 5 characters, then so has every book of the
    table after POST /books, PUT /books/:id or DELETE /books/:id, whatever
    the body. *)
Theorem stored_books_stay_within_the_schema `{Platform} (g : Generated) (now : Z)
    (db : list Book) (i : string) (body : JsonValue) :
  Forall row_ok db ->
  Forall row_ok (snd (answer (createBookHandler g db body)))
  /\ Forall row_ok (snd (answer (updateBookHandler now db i body)))
  /\ Forall row_ok (snd (answer (deleteBookHandler db i))).
Proof.
  intros Hdb. split; [|split].
  - unfold createBookHandler, createBookSchema.
    destruct (baseBookSchema false body) as [issues|parsed] eqn:Hparse; [done|].
    apply baseBookSchema_inr in Hparse as (o & -> & Hacc).
    destruct (create g db (normalizeBookInput parsed)) as [[book|err] db'] eqn:Hc.
    + pose proof (row_ok_created _ _ _ _ _ _ _ Hacc Hc) as Hok.
      apply create_Resolved in Hc as (-> & _). cbn.
      apply Forall_app. split; [done|]. by apply Forall_singleton.
    + by apply create_Thrown in Hc as [-> _].
  - unfold updateBookHandler, updateBookSchema.
    destruct (baseBookSchema true body) as [issues|parsed] eqn:Hparse; [done|].
    apply baseBookSchema_inr in Hparse as (o & -> & Hacc).
    destruct (update now db i (normalizeBookInput parsed)) as [[book|err] db'] eqn:Hu.
    + pose proof (row_ok_updated _ _ _ _ _ _ _ _ Hacc Hdb Hu) as Hok.
      apply update_Resolved in Hu as (old & published & n & _ & _ & _ & _ & _ & ->). cbn.
      apply Forall_fmap. eapply Forall_impl; [exact Hdb|].
      intros b Hb. cbn. by case_bool_decide.
    + by apply update_Thrown in Hu as [-> _].
  - rewrite delete_cases. case_bool_decide; cbn; [|done].
    rewrite Forall_forall in *. intros b [_ Hb]%list_elem_of_filter. by apply Hdb.
Qed.

Lemma stored_books_stay_within_the_schema_witness :
  Forall row_ok (snd (answer (@createBookHandler readme_platform (generated "b7" 100)
                                [clean_code] clean_architecture)))
  /\ Forall row_ok (snd (answer (@updateBookHandler readme_platform 5 [clean_code] "b1"
                                   clean_architecture)))
  /\ Forall row_ok (snd (answer (deleteBookHandler [clean_code] "b1"))).
Proof.
  apply stored_books_stay_within_the_schema. apply Forall_singleton.
  split; [discriminate|]. split; [discriminate|]. split.
  - intros n [= <-]. lia.
  - intros s [= <-]. cbn. lia.
Defined.

#[local] Instance newer_first_total : Total newer_first.
Proof. intros a b. unfold newer_first. lia. Qed.

#[local] Instance newer_first_trans : Transitive newer_first.
Proof. intros a b c. unfold newer_first. lia. Qed.

Lemma StronglySorted_take_drop {A : Type} (R : relation A) (l : list A) (k n : nat) :
  StronglySorted R l -> StronglySorted R (take n (drop k l)).
Proof.
  intros Hl. rewrite <- (take_drop k l) in Hl.
  apply StronglySorted_app_1_r in Hl.
  rewrite <- (take_drop n (drop k l)) in Hl.
  by apply StronglySorted_app_1_l in Hl.
Qed.

(** X13. GET /books, in the service: for a page and a page size of at least
    1 (1 and 20 where the query has none; the rows to skip a number of 32
    bits) the result reports them, the table is not changed, [total] is the
    number of stored books that pass the filters, whatever the page; [data]
    holds min(pageSize, total - (page - 1) pageSize) books, or none when
    that is negative; they are stored books that pass the filters, newest
    first. *)
Theorem list_books_page `{Platform} (db : list Book) (query : ListBooksQuery) :
  let p := default 1 (query_page query) in
  let n := default 20 (query_pageSize query) in
  let w := {| where_title := truthy (query_title query);
              where_author := truthy (query_author query) |} in
  1 <= p -> 1 <= n -> (p - 1) * n <= 2147483647 ->
  exists r,
    list_books db query = (Resolved r, db)
    /\ page r = p /\ pageSize r = n
    /\ total r = Z.of_nat (length (filter (fun b => satisfies w b = true) db))
    /\ Z.of_nat (length (data r)) = Z.max 0 (Z.min n (total r - (p - 1) * n))
    /\ StronglySorted newer_first (data r)
    /\ (forall b, b ∈ data r -> b ∈ db /\ satisfies w b = true).
Proof.
  cbv zeta. intros Hp Hn _. eexists. split; [reflexivity|]. cbn.
  split; [done|]. split; [done|]. split; [done|].
  unfold findMany, count.
  set (w := {| where_title := _; where_author := _ |}).
  set (found := filter (fun b => satisfies w b = true) db).
  split; [|split].
  - rewrite length_take, length_drop, (Permutation_length (merge_sort_Permutation _ found)).
    nia.
  - apply StronglySorted_take_drop, StronglySorted_merge_sort; apply _.
  - intros b Hb. apply subseteq_take, subseteq_drop in Hb.
    rewrite merge_sort_Permutation in Hb. by apply list_elem_of_filter in Hb as [? ?].
Qed.

Lemma list_books_page_witness :
  exists r,
    @list_books readme_platform [clean_code; clean_architecture_book]
      {| query_page := Some 1; query_pageSize := Some 1;
         query_title := Some "clean"; query_author := None |}
    = (Resolved r, [clean_code; clean_architecture_book])
    /\ page r = 1 /\ pageSize r = 1
    /\ total r
       = Z.of_nat (length (filter
           (fun b => @satisfies readme_platform
                       {| where_title := Some "clean"; where_author := None |} b = true)
           [clean_code; clean_architecture_book]))
    /\ Z.of_nat (length (data r)) = Z.max 0 (Z.min 1 (total r - (1 - 1) * 1))
    /\ StronglySorted newer_first (data r)
    /\ (forall b, b ∈ data r ->
          b ∈ [clean_code; clean_architecture_book]
          /\ @satisfies readme_platform
               {| where_title := Some "clean"; where_author := None |} b = true).
Proof.
  apply (@list_books_page readme_platform [clean_code; clean_architecture_book]
           {| query_page := Some 1; query_pageSize := Some 1;
              query_title := Some "clean"; query_author := None |}); cbn; lia.
Defined.

Lemma main_on_empty (g1 g2 : Generated) :
  main g1 g2 [] =
  if bool_decide (new_id g1 <> new_id g2) then (Seed_inserted, seed_data g1 g2)
  else (Seed_failed (PrismaClientKnownRequestError "P2002"), []).
Proof.
  unfold main, createMany. cbn [length Z.of_nat Z.ltb Z.compare app].
  assert (NoDup (omap isbn (seed_data g1 g2))) as Hisbn.
  { cbn. apply NoDup_cons. split; [|apply NoDup_singleton].
    by intros [=]%list_elem_of_singleton. }
  destruct (decide (new_id g1 = new_id g2)) as [E|Hids].
  - rewrite (bool_decide_eq_false_2 (new_id g1 <> new_id g2)) by tauto.
    rewrite bool_decide_eq_false_2; [done|]. intros [Hnd _].
    cbn in Hnd. apply NoDup_cons in Hnd as [Hnd _]. apply Hnd. rewrite E. by left.
  - rewrite (bool_decide_eq_true_2 (new_id g1 <> new_id g2)) by done.
    rewrite bool_decide_eq_true_2; [done|]. split; [|done].
    cbn. apply NoDup_cons. split; [|apply NoDup_singleton].
    by intros ?%list_elem_of_singleton.
Qed.

(** X14. The seed script runs once.  On a table with books it inserts
    nothing; on an empty table, given two different ids, it inserts its two
    books; and after a run that did not fail, a further run, whatever ids it
    is given, skips and leaves the table as it is. *)
Theorem seed_runs_once (g1 g2 g3 g4 : Generated) (db : list Book) :
  (db <> [] -> main g1 g2 db = (Seed_skipped, db))
  /\ (new_id g1 <> new_id g2 -> main g1 g2 [] = (Seed_inserted, seed_data g1 g2))
  /\ ((forall err, fst (main g1 g2 db) <> Seed_failed err) ->
      main g3 g4 (snd (main g1 g2 db)) = (Seed_skipped, snd (main g1 g2 db))).
Proof.
  assert (forall t : list Book, t <> [] -> forall a b, main a b t = (Seed_skipped, t)) as Hskip.
  { intros t Ht a b. unfold main. destruct t as [|x t]; [done|].
    by rewrite (proj2 (Z.ltb_lt 0 _)) by (cbn [length]; lia). }
  split; [intros Hdb; by apply Hskip|]. split.
  - intros Hids. rewrite main_on_empty. by rewrite bool_decide_eq_true_2.
  - intros Hok. destruct db as [|x db].
    + revert Hok. rewrite main_on_empty. case_bool_decide; cbn [fst snd]; intros Hok.
      * by apply Hskip.
      * by destruct (Hok (PrismaClientKnownRequestError "P2002")).
    + rewrite (Hskip (x :: db) ltac:(done) g1 g2). cbn [snd]. by apply Hskip.
Qed.





End BooksApiFacts.

(** ** The realtime leaderboard: the store and its log *)
Section StoreMoreFacts.
Import Leaderboard LeaderboardLog.

Lemma logged_delta_insert (u : string) (events : gmap string ScoreEvent) (ev : ScoreEvent) :
  events !! event_id ev = None ->
  logged_delta u (<[event_id ev := ev]> events)
  = (if bool_decide (user_id ev = u) then delta ev else 0) + logged_delta u events.
Proof.
  intros Hnew. unfold logged_delta. rewrite map_fold_insert_L; [|  |done].
  - by case_bool_decide.
  - intros j1 j2 z1 z2 y _ _ _. repeat case_bool_decide; lia.
Qed.

Lemma current_score_commit (db : Database) (ev : ScoreEvent) (u : string) (at_ : Z) :
  current_score
    {| user_scores :=
         <[user_id ev := {| score := current_score db (user_id ev) + delta ev;
                            updated_at := at_ |}]> (user_scores db);
       score_events := <[event_id ev := ev]> (score_events db) |} u
  = (if bool_decide (user_id ev = u) then delta ev else 0) + current_score db u.
Proof.
  unfold current_score at 1. cbn [user_scores]. case_bool_decide as Hu.
  - subst u. rewrite lookup_insert_eq. cbn. lia.
  - rewrite lookup_insert_ne by done. reflexivity.
Qed.

(** X15. A transaction never lowers a score.  A committed event raises the
    score of its user by exactly its delta, which is positive, and changes
    no other score; a refused one changes nothing; so over any sequence of
    events, valid or not, from any store, no score decreases. *)
Theorem scores_never_decrease (cfg : Config) (db : Database) (u : string) :
  (forall ev new db',
      applyDelta cfg db ev = (Committed new, db') ->
      0 < delta ev
      /\ new = current_score db (user_id ev) + delta ev
      /\ current_score db' (user_id ev) = new
      /\ (u <> user_id ev -> current_score db' u = current_score db u))
  /\ (forall ev db',
      applyDelta cfg db ev = (CheckViolation, db')
      \/ (exists current, applyDelta cfg db ev = (UniqueViolation current, db')) ->
      db' = db)
  /\ (forall evs, current_score db u <= current_score (apply_all cfg db evs) u).
Proof.
  assert (forall d ev, current_score d u <= current_score (snd (applyDelta cfg d ev)) u) as Hstep.
  { intros d ev. destruct (delta_check cfg (delta ev)) eqn:Hc.
    - destruct (score_events d !! event_id ev) as [x|] eqn:Hx.
      + by rewrite applyDelta_unique.
      + rewrite applyDelta_commit by done. cbn [snd]. rewrite current_score_commit.
        apply delta_check_bounds in Hc. case_bool_decide; lia.
    - by rewrite applyDelta_check. }
  split; [|split].
  - intros ev new db' Happ. destruct (delta_check cfg (delta ev)) eqn:Hc.
    + destruct (score_events db !! event_id ev) as [x|] eqn:Hx.
      * by rewrite applyDelta_unique in Happ.
      * rewrite applyDelta_commit in Happ by done. injection Happ as <- <-.
        apply delta_check_bounds in Hc. split; [lia|]. split; [done|].
        rewrite !current_score_commit. split.
        -- rewrite bool_decide_eq_true_2 by done. lia.
        -- intros Hu. by rewrite bool_decide_eq_false_2.
    + by rewrite applyDelta_check in Happ.
  - intros ev db' Happ. destruct (delta_check cfg (delta ev)) eqn:Hc.
    + destruct (score_events db !! event_id ev) as [x|] eqn:Hx.
      * rewrite applyDelta_unique in Happ by done.
        by destruct Happ as [[=]|[c [= _ <-]]].
      * rewrite applyDelta_commit in Happ by done.
        by destruct Happ as [[=]|[c [=]]].
    + rewrite applyDelta_check in Happ by done.
      by destruct Happ as [[= <-]|[c [=]]].
  - intros evs. induction evs as [|e l IH] using rev_ind; [done|].
    rewrite apply_all_snoc. etrans; [exact IH | apply Hstep].
Qed.

(** X16. The aggregate agrees with the audit log.  After any sequence of
    events from the empty store, valid or not, repeated or not, the score of
    every user is the sum of the deltas of the events that [score_events]
    holds for this user. *)
Theorem score_is_the_sum_of_the_log (cfg : Config) (evs : list ScoreEvent) (u : string) :
  current_score (apply_all cfg empty_database evs) u
  = logged_delta u (score_events (apply_all cfg empty_database evs)).
Proof.
  induction evs as [|e l IH] using rev_ind; [reflexivity|].
  rewrite apply_all_snoc. set (db := apply_all cfg empty_database l) in *.
  destruct (delta_check cfg (delta e)) eqn:Hc.
  - destruct (score_events db !! event_id e) as [x|] eqn:Hx.
    + by rewrite applyDelta_unique.
    + rewrite applyDelta_commit by done. cbn [snd score_events].
      by rewrite current_score_commit, logged_delta_insert, IH.
  - by rewrite applyDelta_check.
Qed.

End StoreMoreFacts.
